(** * Replication-study pre-processing: the five stages and their runner

    A shallow embedding of [ReplicationProcessing_2022-12.py].  The script
    works on pandas data frames that it mutates in place.  A method of a
    frame is a computation in a state-and-exception monad over that frame;
    a function of the script is a computation over a store of frame objects,
    in which a Python variable holding a frame is a location.

    Numbers.  A numeric cell is an exact rational [Q]: every comparison the
    script makes is against an integer constant and is the same on binary64
    values, and no statement below depends on how a sum or a square root is
    rounded.  The missing value of pandas (NaN) is the cell [CNaN], and a
    float read from a column is an [option Q] with [None] for NaN.

    Texts.  A text is held as its UTF-8 encoding, one [ascii] for each
    byte, which is how a string literal of this file is read; white space
    is what [str.isspace] holds for, whatever its width.

    Collaborators.  What [pd.to_numeric] accepts as a number, the float
    square root, and the spell checker are libraries, not code of the
    script: they are the fields of two classes, and every general statement
    holds for all their instances. *)

From Stdlib Require Import QArith Qround Ascii.
From stdpp Require Import gmap strings list fin_maps pretty.

Open Scope string_scope.
Open Scope list_scope.
Open Scope nat_scope.

(** ** Cells, rows and data frames *)

Inductive cell : Type :=
  | CStr (s : string)
  | CNum (q : Q)
  | CNaN.

#[global] Instance cell_nan_dec (v : cell) : Decision (v = CNaN).
Proof. destruct v; [right|right|left]; congruence. Defined.

(** A row is keyed by column label; a frame keeps the column order, and each
    row carries its index label (what [df.index] holds at its position). *)
Record DataFrame : Type := mkDF {
  columns : list string;
  rows : list (Z * gmap string cell)
}.

Inductive exn : Type :=
  | IndexError
  | KeyError (c : string)
  | TypeError
  | AttributeError
  | ValueError
  | ReferenceError.

Inductive result (A : Type) : Type :=
  | Ok (a : A)
  | Err (e : exn).
Arguments Ok {A} a.
Arguments Err {A} e.

#[global] Instance result_ret : MRet result := λ A a, Ok a.
#[global] Instance result_bind : MBind result := λ A B f r,
  match r with Ok a => f a | Err e => Err e end.

Fixpoint rmapM {A B} (f : A → result B) (l : list A) : result (list B) :=
  match l with
  | [] => Ok []
  | x :: l' => y ← f x; ys ← rmapM f l'; Ok (y :: ys)
  end.

(** ** The collaborators *)

Class Numeric := {
  (** the number a string denotes for [pd.to_numeric], if any *)
  parse_numeric : string → option Q;
  (** the square root taken by [std] *)
  float_sqrt : Q → Q
}.

Class SpellChecker := {
  (** [spell.unknown(words)]: the set of words not in the dictionary, in the
      order the script's loop meets them *)
  unknown : list string → list string;
  (** [spell.correction(word)]; [None] is Python's [None] *)
  correction : string → option string
}.

(** ** Series operations of pandas and numpy *)

Section Series.
Context `{Numeric}.

(** [pd.to_numeric(s, errors='coerce')], one cell *)
Definition to_numeric (c : cell) : option Q :=
  match c with
  | CStr s => parse_numeric s
  | CNum q => Some q
  | CNaN => None
  end.

Definition of_float (x : option Q) : cell :=
  match x with Some q => CNum q | None => CNaN end.

(** Reading a cell of a numeric column; arithmetic and ordering on a string
    raise [TypeError]. *)
Definition as_float (c : cell) : result (option Q) :=
  match c with
  | CStr _ => Err TypeError
  | CNum q => Ok (Some q)
  | CNaN => Ok None
  end.

Definition floats (s : list cell) : result (list (option Q)) :=
  rmapM as_float s.

(** Comparisons with NaN are false, except [!=], which is true. *)
Definition fgt (x : option Q) (k : Q) : bool :=
  match x with Some q => negb (Qle_bool q k) | None => false end.

Definition flt (x : option Q) (k : Q) : bool :=
  match x with Some q => negb (Qle_bool k q) | None => false end.

Definition fne (x : option Q) (k : Q) : bool :=
  match x with Some q => negb (Qeq_bool q k) | None => true end.

Definition fadd (x y : option Q) : option Q :=
  match x, y with Some a, Some b => Some (a + b)%Q | _, _ => None end.

Definition fsub (x y : option Q) : option Q :=
  match x, y with Some a, Some b => Some (a - b)%Q | _, _ => None end.

(** [np.where(cond, a, b)] with a scalar [a] *)
Definition np_where (cond : list bool) (a : Q) (b : list (option Q))
  : list (option Q) :=
  zip_with (λ (c : bool) x, if c then Some a else x) cond b.

(** [np.where(cond, a, b)] with two arrays *)
Definition np_where2 (cond : list bool) (a b : list (option Q))
  : list (option Q) :=
  zip_with (λ (c : bool) xy, if c then xy.1 else xy.2) cond (zip a b).

(** Row statistics skip NaN ([skipna=True]). *)
Definition present (xs : list (option Q)) : list Q := omap id xs.

Definition Qsum (qs : list Q) : Q := foldr Qplus (0%Q) qs.

Definition Qn (n : nat) : Q := inject_Z (Z.of_nat n).

Definition nanmean (xs : list (option Q)) : option Q :=
  match present xs with
  | [] => None
  | qs => Some (Qsum qs / Qn (length qs))%Q
  end.

(** [std] with the default [ddof=1] *)
Definition nanstd (xs : list (option Q)) : option Q :=
  let qs := present xs in
  if decide (length qs ≤ 1) then None
  else
    let m := (Qsum qs / Qn (length qs))%Q in
    let sq := Qsum ((λ q, (m - q) * (m - q))%Q <$> qs) in
    Some (float_sqrt (sq / Qn (length qs - 1))%Q).

Definition count (xs : list (option Q)) : nat := length (present xs).

End Series.

(** ** Methods of a frame

    A method reads and updates the frame it is called on and may raise. *)

Definition Fr (A : Type) : Type := DataFrame → result (A * DataFrame).

#[global] Instance Fr_ret : MRet Fr := λ A a d, Ok (a, d).
#[global] Instance Fr_bind : MBind Fr := λ A B f m d,
  match m d with Ok (a, d') => f a d' | Err e => Err e end.

Definition raise {A} (e : exn) : Fr A := λ _, Err e.

Definition lift {A} (r : result A) : Fr A :=
  λ d, match r with Ok a => Ok (a, d) | Err e => Err e end.

Definition get : Fr DataFrame := λ d, Ok (d, d).

Definition put (d' : DataFrame) : Fr unit := λ _, Ok (tt, d').

Fixpoint for_ {A} (l : list A) (body : A → Fr unit) : Fr unit :=
  match l with
  | [] => mret tt
  | x :: l' => body x;; for_ l' body
  end.

Abbreviation row := (Z * gmap string cell)%type (only parsing).

Definition cell_at (c : string) (r : row) : cell := default CNaN (r.2 !! c).

(** Boolean indexing keeps the entries whose mask is [True]. *)
Fixpoint select {A} (mask : list bool) (l : list A) : list A :=
  match mask, l with
  | b :: mask', x :: l' =>
      if b then x :: select mask' l' else select mask' l'
  | _, _ => []
  end.

Fixpoint assoc {V} (k : string) (l : list (string * V)) : option V :=
  match l with
  | [] => None
  | (k', v) :: l' => if decide (k' = k) then Some v else assoc k l'
  end.

(** [len(df)] *)
Definition len : Fr nat :=
  d ← get; mret (length (rows d)).

(** [df.columns] *)
Definition get_columns : Fr (list string) :=
  d ← get; mret (columns d).

(** [df.index[i]] *)
Definition index_at (i : nat) : Fr Z :=
  d ← get;
  match rows d !! i with
  | Some r => mret r.1
  | None => raise IndexError
  end.

(** [df.drop(lab, inplace=True)]: every row labelled [lab] goes. *)
Definition drop_inplace (lab : Z) : Fr unit :=
  d ← get;
  put (mkDF (columns d) (filter (λ r : row, r.1 ≠ lab) (rows d))).

(** [df[c]] *)
Definition getitem (c : string) : Fr (list cell) :=
  d ← get;
  if decide (c ∈ columns d) then mret (cell_at c <$> rows d)
  else raise (KeyError c).

(** [df[c] = vs]: a new label is appended to the columns.  The script only
    assigns series of the frame's own length; pandas refuses any other. *)
Definition setitem (c : string) (vs : list cell) : Fr unit :=
  d ← get;
  if decide (length vs = length (rows d)) then
    put (mkDF (if decide (c ∈ columns d) then columns d else columns d ++ [c])
              (zip_with (λ (r : row) v, (r.1, <[c := v]> r.2)) (rows d) vs))
  else raise ValueError.

(** [df[c] = v] for a scalar [v] *)
Definition setitem_scalar (c : string) (v : cell) : Fr unit :=
  n ← len; setitem c (replicate n v).

(** [df[mask]]: the frame of the selected rows, with their labels. *)
Definition getitem_mask (mask : list bool) : Fr DataFrame :=
  d ← get; mret (mkDF (columns d) (select mask (rows d))).

(** [df.rename(columns={old: new}, inplace=True)], one entry of the
    dictionary.  A frame here has one column per label: where [new] already
    labels a column, the renamed column takes its place. *)
Definition rename_row (old new : string) (r : row) : row :=
  match r.2 !! old with
  | Some v => (r.1, <[new := v]> (delete old r.2))
  | None => r
  end.

Definition rename_inplace (old new : string) : Fr unit :=
  d ← get;
  put (mkDF ((λ c, if decide (c = old) then new else c) <$> columns d)
            (rename_row old new <$> rows d)).

(** [df.replace({c: m}, inplace=True)], one column of the nested
    dictionary: a cell equal to a key of [m] becomes its value, any other
    cell stays, and a column that is not there is skipped. *)
Definition recode (m : list (string * string)) (v : cell) : cell :=
  match v with
  | CStr s => match assoc s m with Some s' => CStr s' | None => v end
  | _ => v
  end.

Definition replace_inplace (c : string) (m : list (string * string))
  : Fr unit :=
  d ← get;
  put (mkDF (columns d)
            ((λ r : row, (r.1, alter (recode m) c r.2)) <$> rows d)).

(** [df.drop(columns=cs, inplace=True, errors='ignore')] *)
Definition drop_columns_inplace (cs : list string) : Fr unit :=
  d ← get;
  put (mkDF (filter (λ c, c ∉ cs) (columns d))
            ((λ r : row, (r.1, foldr delete r.2 cs)) <$> rows d)).

Section Frames.
Context `{Numeric}.

(** [df.loc[:, cs]] read row by row as floats, for the statistics along
    [axis=1]; a label that is not a column is a [KeyError]. *)
Definition loc_columns (cs : list string) : Fr (list (list (option Q))) :=
  d ← get;
  match filter (λ c, c ∉ columns d) cs with
  | c :: _ => raise (KeyError c)
  | [] => lift (rmapM (λ r, floats ((λ c, cell_at c r) <$> cs)) (rows d))
  end.

(** [df[c]] of a numeric column *)
Definition getitem_float (c : string) : Fr (list (option Q)) :=
  s ← getitem c; lift (floats s).

(** [df[c0] + df[c1] + ...], added from the left *)
Definition add_columns (c0 : string) (cs : list string)
  : Fr (list (option Q)) :=
  x0 ← getitem_float c0;
  foldl (λ (acc : Fr (list (option Q))) c,
           x ← acc; y ← getitem_float c; mret (zip_with fadd x y))
        (mret x0) cs.

End Frames.

(** ** The store of frame objects *)

Abbreviation loc := nat (only parsing).
Abbreviation heap := (list DataFrame) (only parsing).

Definition M (A : Type) : Type := heap → result (A * heap).

#[global] Instance M_ret : MRet M := λ A a h, Ok (a, h).
#[global] Instance M_bind : MBind M := λ A B f m h,
  match m h with Ok (a, h') => f a h' | Err e => Err e end.

(** Calling the method [m] on the object at [l]. *)
Definition on {A} (l : loc) (m : Fr A) : M A :=
  λ h, match h !! l with
       | Some d =>
           match m d with
           | Ok (a, d') => Ok (a, <[l := d']> h)
           | Err e => Err e
           end
       | None => Err ReferenceError
       end.

(** A new object. *)
Definition alloc (d : DataFrame) : M loc :=
  λ h, Ok (length h, h ++ [d]).

(** [df.copy()] *)
Definition copy (df : loc) : M loc :=
  d ← on df get; alloc d.

(** ** Strings: [str.split()] and [str.replace]

    A text is held as its UTF-8 encoding, one [ascii] for each byte. *)

Definition utf8 (bytes : list nat) : string :=
  foldr (λ n s, String (Ascii.ascii_of_nat n) s) "" bytes.

(** The characters for which [str.isspace] holds, encoded: U+0009 to U+000D
    and U+001C to U+0020; U+0085, U+00A0 and U+1680; U+2000 to U+200A;
    U+2028, U+2029, U+202F, U+205F and U+3000. *)
Definition white_space : list string :=
  ((λ n, utf8 [n]) <$> seq 9 5 ++ seq 28 5)
  ++ [ utf8 [194; 133]; utf8 [194; 160]; utf8 [225; 154; 128] ]
  ++ ((λ n, utf8 [226; 128; n]) <$> seq 128 11)
  ++ [ utf8 [226; 128; 168]; utf8 [226; 128; 169]; utf8 [226; 128; 175];
       utf8 [226; 129; 159]; utf8 [227; 128; 128] ].

(** The number of bytes of the white-space character [s] starts with, 0
    where it starts with none. *)
Definition space_width (s : string) : nat :=
  match filter (λ w, String.prefix w s = true) white_space with
  | w :: _ => String.length w
  | [] => 0
  end.

(** [s.split()]: the maximal runs of characters that are not white space;
    [cur] is the run being read, [skip] the bytes still to pass of the
    white-space character just met. *)
Fixpoint split_go (cur : string) (skip : nat) (s : string) : list string :=
  match s with
  | EmptyString => if decide (cur = "") then [] else [cur]
  | String a s' =>
      match skip with
      | S k => split_go cur k s'
      | O =>
          match space_width s with
          | S k => (if decide (cur = "") then [] else [cur]) ++ split_go "" k s'
          | O => split_go (cur +:+ String a "") 0 s'
          end
      end
  end.

Definition split (s : string) : list string := split_go "" 0 s.

(** [s.replace(old, new)] for a non-empty [old]: occurrences are found from
    the left and do not overlap; [skip] counts the characters of the
    occurrence just replaced that are still to be passed over.  On encoded
    texts an occurrence of bytes is an occurrence of characters. *)
Fixpoint replace_go (old new : string) (skip : nat) (s : string) : string :=
  match s with
  | EmptyString => ""
  | String a s' =>
      match skip with
      | S k => replace_go old new k s'
      | O =>
          if String.prefix old s
          then new +:+ replace_go old new (String.length old - 1) s'
          else String a (replace_go old new 0 s')
      end
  end.

(** A byte that continues the character begun before it. *)
Definition continues (a : Ascii.ascii) : bool :=
  let n := Ascii.nat_of_ascii a in (128 <=? n) && (n <=? 191).

(** With an empty [old], [new] goes before every character and at the end. *)
Fixpoint replace_empty (new : string) (s : string) : string :=
  match s with
  | EmptyString => new
  | String a s' =>
      if continues a then String a (replace_empty new s')
      else new +:+ String a (replace_empty new s')
  end.

Definition str_replace (s old new : string) : string :=
  if decide (old = "") then replace_empty new s
  else replace_go old new 0 s.


(** A dictionary keeps its keys in the order of their first insertion. *)
Fixpoint dict_set {V} (k : string) (v : V) (d : list (string * V))
  : list (string * V) :=
  match d with
  | [] => [(k, v)]
  | (k', v') :: d' =>
      if decide (k' = k) then (k, v) :: d' else (k', v') :: dict_set k v d'
  end.

(** ** The five stages *)

Section Stages.
Context `{Numeric} `{SpellChecker}.

(** [range(a, a + n)] as cells *)
Definition range_cells (a n : nat) : list cell :=
  (λ i, CNum (Qn i)) <$> seq a n.

Definition STAGE1 (df : loc) : M loc :=
  (* Removing the second row (redundant) *)
  on df (lab ← index_at 1; drop_inplace lab);;
  (* Converting string columns to numeric type *)
  on df (p ← getitem "Progress";
         setitem "Progress" (of_float <$> (to_numeric <$> p)));;
  on df (q ← getitem "Q3";
         setitem "Q3" (of_float <$> (to_numeric <$> q)));;
  (* Removing rows (participants) based on exclusion conditions *)
  d ← on df (p ← getitem_float "Progress";
             getitem_mask ((λ x, fgt x 99) <$> p));
  df ← alloc d;
  d ← on df (q ← getitem_float "Q3";
             getitem_mask ((λ x, fgt x 18) <$> q));
  df ← alloc d;
  (* Adding 'SubID' column and assigning sequential IDs *)
  on df (n ← len; setitem "SubID" (range_cells 1 n));;
  mret df.

Definition renaming_dict : list (string * string) :=
  [ ("Q4", "Gender"); ("Q5", "Education"); ("Q6", "Native Language") ].

Definition recode_dict : list (string * list (string * string)) :=
  [ ("Gender",
     [ ("Male", "1"); ("Female", "2");
       ("I do not identify with one of the above categories", "3") ]);
    ("Education",
     [ ("Other", "1");
       ("Compulsory education (e.g., primary school, high school, ...)", "2");
       ("Higher education (e.g., bachelor, master, Ph.D., ...)", "3") ]);
    ("Native Language", [ ("Other", "1"); ("English", "2") ]) ].

Definition STAGE2_body : Fr unit :=
  (* Renaming variables *)
  for_ renaming_dict (λ kv, rename_inplace kv.1 kv.2);;
  (* Recoding column values *)
  for_ recode_dict (λ cm, replace_inplace cm.1 cm.2).

Definition STAGE2 (df : loc) : M loc :=
  on df STAGE2_body;; mret df.

Definition new_cols : list string :=
  [ "Animate (average interaction rating)"; "Animate (SD)"; "Animate (n)";
    "Inanimate (average interaction rating)"; "Inanimate (SD)";
    "Inanimate (n)";
    "Filler score (correct)"; "Filler score (incorrect)"; "Filler score";
    "Words (pre-processed)"; "Words (incorrectly spelled)";
    "Words (corrected spelling)" ].

Definition rem_cols : list string :=
  [ "StartDate"; "EndDate"; "Status"; "Progress"; "Duration (in seconds)";
    "Finished"; "RecordedDate"; "ResponseId"; "DistributionChannel";
    "UserLanguage" ].

Definition STAGE3_body : Fr unit :=
  (* Initializing new variables *)
  for_ new_cols (λ col, setitem_scalar col CNaN);;
  (* Removing columns *)
  drop_columns_inplace rem_cols.

Definition STAGE3 (df : loc) : M loc :=
  on df STAGE3_body;; mret df.

(** ['Q' + str(i) for i in range(a, a + n)] *)
Definition items (a n : nat) : list string :=
  (λ i, "Q" +:+ pretty i) <$> seq a n.

Definition animate_items : list string := items 10 12.
Definition inanimate_items : list string := items 22 12.

(** Ensure columns Q36 to Q55 are numeric and only contain 0 and 1 values *)
Definition binary_items : Fr unit :=
  cols ← get_columns;
  for_ cols (λ col,
    if decide (col ∈ items 36 20) then
      s ← getitem col;
      setitem col (of_float <$> (to_numeric <$> s));;
      x ← getitem_float col;
      setitem col (of_float <$> np_where ((λ v, fgt v 1) <$> x) 1 x);;
      x ← getitem_float col;
      setitem col (of_float <$> np_where ((λ v, flt v 0) <$> x) 0 x)
    else mret tt).

(** Convert all columns before Q56 to numeric *)
Definition numeric_columns : Fr unit :=
  cols ← get_columns;
  for_ cols (λ col,
    if decide (col ≠ "Q56") then
      s ← getitem col;
      setitem col (of_float <$> (to_numeric <$> s))
    else mret tt).

(** Adjustments to columns Q10 and Q11 *)
Definition adjust_Q11 : Fr unit :=
  cols ← get_columns;
  if decide ("Q11" ∈ cols) then
    x ← getitem_float "Q11";
    setitem "Q11"
      (of_float <$> np_where2 ((λ v, fne v 1) <$> x)
                              ((λ v, fsub v (Some 7%Q)) <$> x) x)
  else mret tt.

(** Calculating interaction scores (average, SD, & n) *)
Definition interaction_scores : Fr unit :=
  g ← loc_columns animate_items;
  setitem "Animate (average interaction rating)"
    ((λ xs, of_float (nanmean xs)) <$> g);;
  g ← loc_columns animate_items;
  setitem "Animate (SD)" ((λ xs, of_float (nanstd xs)) <$> g);;
  g ← loc_columns animate_items;
  setitem "Animate (n)" ((λ xs, CNum (Qn (count xs))) <$> g);;
  g ← loc_columns inanimate_items;
  setitem "Inanimate (average interaction rating)"
    ((λ xs, of_float (nanmean xs)) <$> g);;
  g ← loc_columns inanimate_items;
  setitem "Inanimate (SD)" ((λ xs, of_float (nanstd xs)) <$> g);;
  g ← loc_columns inanimate_items;
  setitem "Inanimate (n)" ((λ xs, CNum (Qn (count xs))) <$> g).

(** Calculating Filler scores (correct & incorrect responses) *)
Definition filler_scores : Fr unit :=
  c ← add_columns "Q36" (items 37 10);
  setitem "Filler score (correct)" (of_float <$> c);;
  i ← add_columns "Q47" (items 48 8);
  setitem "Filler score (incorrect)" (of_float <$> i);;
  i ← getitem_float "Filler score (incorrect)";
  setitem "Filler score (incorrect)"
    (of_float <$> ((λ v, fsub v (Some 9%Q)) <$> i));;
  c ← getitem_float "Filler score (correct)";
  i ← getitem_float "Filler score (incorrect)";
  setitem "Filler score" (of_float <$> zip_with fadd c i).

(** The blocks of [STAGE4], in the order of the source. *)
Definition STAGE4_body : Fr unit :=
  binary_items;;
  numeric_columns;;
  adjust_Q11;;
  interaction_scores;;
  filler_scores.

Definition STAGE4 (df : loc) : M loc :=
  on df STAGE4_body;; mret df.

(** [df['Q56'].str.split().sum()].  A cell that is not a string splits to
    NaN, which the sum reads as 0, and adding a list to 0 is a [TypeError];
    the sum of no rows is 0, which [spell.unknown] cannot iterate over: the
    [TypeError] of that next line is raised here. *)
Definition str_split_sum (s : list cell) : result (list string) :=
  toks ← rmapM (λ c, match c with
                      | CStr t => Ok (split t)
                      | _ => Err TypeError
                      end) s;
  match s with
  | [] => Err TypeError
  | _ => Ok (concat toks)
  end.

(** The dictionary [corrections] after the loop over [misspelled]. *)
Definition build_corrections (misspelled : list string)
  : list (string * option string) :=
  foldl (λ acc word, dict_set word (correction word) acc) [] misspelled.

(** The loop of [correct_words]; [text.replace(wrong, None)] is a
    [TypeError]. *)
Fixpoint correct_words (corrections : list (string * option string))
    (text : string) : result string :=
  match corrections with
  | [] => Ok text
  | (wrong, Some correct) :: rest =>
      correct_words rest (str_replace text wrong correct)
  | (_, None) :: _ => Err TypeError
  end.

(** [correct_words] on a cell of the column: with no correction to make the
    loop body never runs; otherwise a float has no [replace]. *)
Definition correct_cell (corrections : list (string * option string))
    (c : cell) : result cell :=
  match c with
  | CStr text => t ← correct_words corrections text; Ok (CStr t)
  | _ => match corrections with [] => Ok c | _ => Err AttributeError end
  end.

Definition specified_words : list string :=
  [ "owl"; "bee"; "minister"; "baby"; "soldier"; "python"; "wolf";
    "engineer"; "trout"; "turtle"; "spider"; "duck"; "doll"; "drum";
    "purse"; "violin"; "slippers"; "stove"; "rake"; "journal";
    "whistle"; "tent"; "hat"; "kite" ].

(** [l.count(w)] *)
Definition list_count (w : string) (l : list string) : nat :=
  length (filter (λ x, x = w) l).

(** The body of [STAGE5] up to its [return]; its value is the local
    [word_counts], which [STAGE5] does not return. *)
Definition STAGE5_body : Fr (list (string * nat)) :=
  (* Spliting the words in the Q56 column and flattening the list *)
  s ← getitem "Q56";
  all_words ← lift (str_split_sum s);
  (* Finding the misspelled words *)
  let misspelled := unknown all_words in
  (* Correcting the misspelled words *)
  let corrections := build_corrections misspelled in
  (* Replacing the misspelled words in Q56 column with their corrections *)
  s ← getitem "Q56";
  s' ← lift (rmapM (correct_cell corrections) s);
  setitem "Q56" s';;
  (* Counting and categorizing word lists *)
  let word_counts :=
    foldl (λ acc word, dict_set word (list_count word all_words) acc)
          [] specified_words in
  mret word_counts.

Definition STAGE5 (df : loc) : M loc :=
  on df STAGE5_body;; mret df.

(** The body of the loop of [PROCESS], from the frame read from one file to
    the frame that is written out. *)
Definition PROCESS (df : loc) : M loc :=
  c ← copy df; df_stage1 ← STAGE1 c;
  c ← copy df_stage1; df_stage2 ← STAGE2 c;
  c ← copy df_stage2; df_stage3 ← STAGE3 c;
  c ← copy df_stage3; df_stage4 ← STAGE4 c;
  df_stage5 ← STAGE5 df_stage4;
  mret df_stage5.

End Stages.

(** ** Running a function of the script on one frame

    The caller's frame is the only object of the store, at location 0. *)

Definition run (f : loc → M loc) (d : DataFrame) : result DataFrame :=
  match f 0 [d] with
  | Ok (l, h) =>
      match h !! l with Some d' => Ok d' | None => Err ReferenceError end
  | Err e => Err e
  end.

(** What the caller's own frame holds once [f] has returned. *)
Definition argument_after (f : loc → M loc) (d : DataFrame)
  : result DataFrame :=
  match f 0 [d] with
  | Ok (_, h) =>
      match h !! 0 with Some d' => Ok d' | None => Err ReferenceError end
  | Err e => Err e
  end.

(** ** Instances of the collaborators for the worked examples *)

Module Examples.

Definition digit (a : Ascii.ascii) : option Z :=
  let n := Ascii.nat_of_ascii a in
  if (48 <=? n) && (n <=? 57) then Some (Z.of_nat (n - 48)) else None.

(** Plain decimals: digits with at most one point among them. *)
Fixpoint parse_digits (seen frac : bool) (num : Z) (den : positive)
    (s : string) : option Q :=
  match s with
  | EmptyString => if seen then Some (num # den) else None
  | String a s' =>
      if decide (a = "."%char) then
        if frac then None else parse_digits seen true num den s'
      else
        match digit a with
        | Some k =>
            parse_digits true frac (10 * num + k)%Z
                         (if frac then (10 * den)%positive else den) s'
        | None => None
        end
  end.

Definition parse_decimal (s : string) : option Q :=
  match s with
  | String "-" s' => Qopp <$> parse_digits false false 0 1 s'
  | _ => parse_digits false false 0 1 s
  end.

(** A square root to six decimals. *)
Definition sqrt6 (q : Q) : Q :=
  (Z.sqrt (Qfloor (q * 1000000000000)) # 1000000)%Q.

#[export] Instance decimal : Numeric :=
  {| parse_numeric := parse_decimal; float_sqrt := sqrt6 |}.

(** A checker that knows the keywords and misses two spellings. *)
Definition typos : list (string * string) :=
  [ ("owll", "owl"); ("teh", "the") ].

Definition known (w : string) : bool :=
  bool_decide (w ∈ "the" :: "a" :: "and" :: specified_words).

#[export] Instance small_checker : SpellChecker :=
  {| unknown := λ ws, remove_dups (filter (λ w, known w = false) ws);
     correction := λ w, Some (default w (assoc w typos)) |}.

Definition mk_row (i : Z) (l : list (string * cell)) : row :=
  (i, list_to_map l).

Definition gatekeeping (i : Z) (progress age : cell) : row :=
  mk_row i [("Progress", progress); ("Q3", age)].

(** Three raw records: the second is dropped as the structural row, the
    third is under age. *)
Definition three_records : DataFrame :=
  mkDF ["Progress"; "Q3"]
       [ gatekeeping 0 (CNum 100) (CNum 25);
         gatekeeping 1 (CNum 50) (CNum 30);
         gatekeeping 2 (CNum 100) (CNum 17) ].

(** The row at position 1 is a respondent who meets both criteria. *)
Definition passing_second : DataFrame :=
  mkDF ["Progress"; "Q3"]
       [ gatekeeping 0 (CStr "100") (CStr "25");
         gatekeeping 1 (CStr "100") (CStr "30");
         gatekeeping 2 (CStr "100") (CStr "40");
         gatekeeping 3 (CStr "n/a") (CStr "40") ].

Definition one_record : DataFrame :=
  mkDF ["Progress"; "Q3"] [ gatekeeping 0 (CNum 100) (CNum 25) ].

(** A raw export: the question texts, the import identifiers, and three
    respondents, the second of them under age. *)
Definition raw_columns : list string :=
  ["Progress"; "Q3"; "Q4"; "Q5"; "Q6"] ++ items 10 24 ++ items 36 20
  ++ ["Q56"].

Definition respondent (i : Z) (progress age : string) (rating : Q)
    (filler : cell) (words : string) : row :=
  mk_row i ([("Progress", CStr progress); ("Q3", CStr age);
             ("Q4", CStr "Male"); ("Q5", CStr "Other");
             ("Q6", CStr "English")]
            ++ ((λ c, (c, CNum rating)) <$> items 10 24)
            ++ ((λ c, (c, filler)) <$> items 36 20)
            ++ [("Q56", CStr words)]).

Definition survey : DataFrame :=
  mkDF raw_columns
       [ respondent 0 "Progress" "How old are you?" 0 (CStr "x") "Words";
         respondent 1 "{ImportId}" "{ImportId}" 0 (CStr "x") "imp";
         respondent 2 "100" "25" 4 (CNum 1) "teh owll and a bee";
         respondent 3 "100" "17" 4 (CNum 1) "kite";
         respondent 4 "100" "40" 5 (CNum 0) "owl owll kite" ].

(** Item columns only: a record with every rating given, and one with no
    animate rating, a single inanimate rating, and a filler item left
    unanswered. *)
Definition ratings : DataFrame :=
  mkDF (items 10 24 ++ items 36 20)
       [ mk_row 0 (((λ c, (c, CNum 4)) <$> items 10 24)
                   ++ ((λ c, (c, CStr "1")) <$> items 36 20));
         mk_row 1 (((λ c, (c, CNaN)) <$> items 10 12)
                   ++ [("Q22", CStr "6")]
                   ++ ((λ c, (c, CStr "-")) <$> items 23 11)
                   ++ [("Q36", CNaN)]
                   ++ ((λ c, (c, CNum 1)) <$> items 37 19)) ].

(** A filler item answered with the number one half. *)
Definition half_answer : DataFrame :=
  mkDF (items 10 24 ++ items 36 20)
       [ mk_row 0 (((λ c, (c, CNum 4)) <$> items 10 24)
                   ++ [("Q36", CNum (1 # 2))]
                   ++ ((λ c, (c, CNum 1)) <$> items 37 19)) ].

(** Two free-text answers with a misspelled keyword. *)
Definition misspelt : DataFrame :=
  mkDF ["Q56"]
       [ mk_row 0 [("Q56", CStr "owll")];
         mk_row 1 [("Q56", CStr "teh owll and a kite")] ].

(** What [STAGE5] returns for [misspelt]. *)
Definition misspelt_corrected : DataFrame :=
  mkDF ["Q56"]
       [ mk_row 0 [("Q56", CStr "owl")];
         mk_row 1 [("Q56", CStr "the owl and a kite")] ].

(** An answer whose words are set apart by a no-break space (U+00A0), a
    space and an ideographic space (U+3000). *)
Definition no_break : DataFrame :=
  mkDF ["Q56"]
       [ mk_row 0 [("Q56", CStr ("owl" +:+ utf8 [194; 160] +:+ "kite owl"
                                 +:+ utf8 [227; 128; 128] +:+ "bee"))] ].

(** The frames the stages make of these tables, by evaluation. *)
Definition evaluated (r : result DataFrame) : DataFrame :=
  match r with Ok d => d | Err _ => mkDF [] [] end.

Definition survey_filtered : DataFrame :=
  Eval vm_compute in evaluated (run STAGE1 survey).

Definition survey_processed : DataFrame :=
  Eval vm_compute in evaluated (run PROCESS survey).

Definition ratings_scored : DataFrame :=
  Eval vm_compute in evaluated (run STAGE4 ratings).

Definition half_answer_scored : DataFrame :=
  Eval vm_compute in evaluated (run STAGE4 half_answer).

(** What [STAGE1] returns for [three_records], and what it leaves in it. *)
Definition survivor : DataFrame :=
  mkDF ["Progress"; "Q3"; "SubID"]
       [ mk_row 0 [("Progress", CNum 100); ("Q3", CNum 25);
                   ("SubID", CNum 1)] ].

Definition three_records_after : DataFrame :=
  mkDF ["Progress"; "Q3"]
       [ gatekeeping 0 (CNum 100) (CNum 25);
         gatekeeping 2 (CNum 100) (CNum 17) ].

(** What [STAGE1] returns for [passing_second]. *)
Definition first_and_third : DataFrame :=
  mkDF ["Progress"; "Q3"; "SubID"]
       [ mk_row 0 [("Progress", CNum 100); ("Q3", CNum 25);
                   ("SubID", CNum 1)];
         mk_row 2 [("Progress", CNum 100); ("Q3", CNum 40);
                   ("SubID", CNum 2)] ].

End Examples.

(** * Properties of the stages *)

(** ** Notions used in the statements *)

Section Notions.
Context `{Numeric}.

Definition labels (d : DataFrame) : list Z := fst <$> rows d.

(** The exclusion criteria, read on a raw row: both gatekeeping cells,
    coerced, exceed their thresholds. *)
Definition passes (r : row) : bool :=
  fgt (to_numeric (cell_at "Progress" r)) 99
  && fgt (to_numeric (cell_at "Q3" r)) 18.

(** A cell that numeric code can read. *)
Definition is_num (c : cell) : Prop :=
  match c with CStr _ => False | _ => True end.

(** Assigning to column [c], row by row, the value [f] gives. *)
Definition add_col (c : string) (cols : list string) : list string :=
  if decide (c ∈ cols) then cols else cols ++ [c].

Definition assign (c : string) (f : row → cell) (d : DataFrame) : DataFrame :=
  mkDF (add_col c (columns d))
       ((λ r : row, (r.1, <[c := f r]> r.2)) <$> rows d).

Definition coerced (c : string) (r : row) : cell :=
  of_float (to_numeric (cell_at c r)).

Definition gate (c : string) (k : Q) (r : row) : bool :=
  fgt (to_numeric (cell_at c r)) k.

(** The frames [STAGE1] goes through, for the label [lab] it drops: its
    argument after the in-place steps, the two selections, the result. *)
Definition stage1_arg (lab : Z) (d : DataFrame) : DataFrame :=
  assign "Q3" (coerced "Q3")
    (assign "Progress" (coerced "Progress")
       (mkDF (columns d) (filter (λ r : row, r.1 ≠ lab) (rows d)))).

Definition stage1_mid (lab : Z) (d : DataFrame) : DataFrame :=
  mkDF (columns (stage1_arg lab d))
       (filter (λ r, gate "Progress" 99 r) (rows (stage1_arg lab d))).

Definition stage1_sel (lab : Z) (d : DataFrame) : DataFrame :=
  mkDF (columns (stage1_arg lab d))
       (filter (λ r, gate "Q3" 18 r) (rows (stage1_mid lab d))).

Definition stage1_out (lab : Z) (d : DataFrame) : DataFrame :=
  mkDF (add_col "SubID" (columns (stage1_arg lab d)))
       (zip_with (λ (r : row) v, (r.1, <["SubID" := v]> r.2))
                 (rows (stage1_sel lab d))
                 (range_cells 1 (length (rows (stage1_sel lab d))))).

End Notions.

(** ** Running methods and functions *)

Lemma on_apply {A} (m : Fr A) (l : loc) (h : heap) d :
  h !! l = Some d →
  on l m h = match m d with
             | Ok (a, d') => Ok (a, <[l := d']> h)
             | Err e => Err e
             end.
Proof. intros Hl. unfold on. by rewrite Hl. Qed.

Lemma bind_apply {A B} (m : Fr A) (k : A → Fr B) d :
  (m ≫= k) d = match m d with Ok (a, d') => k a d' | Err e => Err e end.
Proof. reflexivity. Qed.

Lemma M_bind_apply {A B} (m : M A) (k : A → M B) h :
  (m ≫= k) h = match m h with Ok (a, h') => k a h' | Err e => Err e end.
Proof. reflexivity. Qed.

Lemma select_fmap {A} (f : A → bool) (l : list A) :
  select (f <$> l) l = filter (λ x, f x) l.
Proof.
  induction l as [|x l IH]; [done|].
  change (select (f <$> x :: l) (x :: l))
    with (if f x then x :: select (f <$> l) l else select (f <$> l) l).
  rewrite IH. destruct (f x) eqn:E.
  - rewrite filter_cons_True; [done|]. by apply Is_true_true.
  - rewrite filter_cons_False; [done|]. by apply Is_true_false.
Qed.

Lemma Forall_filter_keep {A} (P Q : A → Prop) `{!∀ x, Decision (P x)}
    (l : list A) :
  Forall Q l → Forall Q (filter P l).
Proof.
  rewrite !Forall_forall. intros HQ x [_ Hx]%list_elem_of_filter. auto.
Qed.

Lemma filter_fmap {A B} (f : A → B) (P : B → Prop) `{!∀ y, Decision (P y)}
    (l : list A) :
  filter P (f <$> l) = f <$> filter (λ x, P (f x)) l.
Proof.
  induction l as [|x l IH]; [done|]. rewrite fmap_cons, !filter_cons, IH.
  by destruct (decide (P (f x))).
Qed.

Lemma filter_ext_in {A} (P Q : A → Prop)
    `{!∀ x, Decision (P x)} `{!∀ x, Decision (Q x)} (l : list A) :
  (∀ x, x ∈ l → P x ↔ Q x) → filter P l = filter Q l.
Proof.
  induction l as [|x l IH]; [done|]. intros HPQ.
  rewrite !filter_cons, IH by (intros; apply HPQ; by right).
  destruct (decide (P x)) as [HP|HP], (decide (Q x)) as [HQ|HQ]; try done.
  - destruct HQ. by apply HPQ; [left|].
  - destruct HP. by apply HPQ; [left|].
Qed.

Lemma fmap_zip_with_left {A B C D} (g : C → D) (f : A → B → C) (g' : A → D)
    (l : list A) (k : list B) :
  (∀ x y, g (f x y) = g' x) → length l ≤ length k →
  g <$> zip_with f l k = g' <$> l.
Proof.
  intros Hg. revert k. induction l as [|x l IH]; intros [|y k] Hlen;
    simpl in *; try done; try lia.
  rewrite Hg. f_equal. apply IH. lia.
Qed.

Section Basics.
Context `{Numeric}.

Lemma setitem_fmap c (f : row → cell) d :
  setitem c (f <$> rows d) d = Ok (tt, assign c f d).
Proof.
  unfold setitem. rewrite bind_apply. simpl.
  rewrite decide_True by apply length_fmap.
  unfold put, assign, add_col. do 3 f_equal.
  rewrite zip_with_fmap_r. apply zip_with_diag.
Qed.

Lemma getitem_apply c d :
  getitem c d = if decide (c ∈ columns d) then Ok (cell_at c <$> rows d, d)
                else Err (KeyError c).
Proof. unfold getitem. rewrite bind_apply. simpl. by case_decide. Qed.

Lemma floats_num (s : list cell) :
  Forall is_num s → floats s = Ok (to_numeric <$> s).
Proof.
  unfold floats. induction 1 as [|c s Hc _ IH]; [done|]. simpl.
  rewrite IH. by destruct c.
Qed.

Lemma is_num_of_float x : is_num (of_float x).
Proof. by destruct x. Qed.

Lemma to_numeric_of_float x : to_numeric (of_float x) = x.
Proof. by destruct x. Qed.

Lemma getitem_float_apply c d :
  c ∈ columns d →
  Forall (λ r, is_num (cell_at c r)) (rows d) →
  getitem_float c d = Ok ((λ r, to_numeric (cell_at c r)) <$> rows d, d).
Proof.
  intros Hc Hn. unfold getitem_float. rewrite bind_apply, getitem_apply.
  rewrite decide_True by done. unfold lift.
  rewrite floats_num by (by apply Forall_fmap).
  by rewrite <- list_fmap_compose.
Qed.

Lemma cell_at_insert_eq c v (i : Z) (m : gmap string cell) :
  cell_at c (i, <[c := v]> m) = v.
Proof. unfold cell_at. simpl. by rewrite lookup_insert_eq. Qed.

Lemma cell_at_insert_ne c c' v (i : Z) (m : gmap string cell) :
  c' ≠ c → cell_at c (i, <[c' := v]> m) = cell_at c (i, m).
Proof. intros. unfold cell_at. simpl. by rewrite lookup_insert_ne. Qed.

Lemma elem_of_add_col c c' cols : c ∈ add_col c' cols ↔ c = c' ∨ c ∈ cols.
Proof.
  unfold add_col. case_decide.
  - split; [auto|]. by intros [->|].
  - rewrite elem_of_app, list_elem_of_singleton. tauto.
Qed.

End Basics.

(** ** Stage 1 on an arbitrary store *)

Section Stage1.
Context `{Numeric} `{SpellChecker}.

Lemma coerce_step c d :
  c ∈ columns d →
  (p ← getitem c; setitem c (of_float <$> (to_numeric <$> p))) d
  = Ok (tt, assign c (coerced c) d).
Proof.
  intros Hc. rewrite bind_apply, getitem_apply, decide_True by done.
  rewrite <- list_fmap_compose, <- list_fmap_compose. apply setitem_fmap.
Qed.

Lemma coerce_step_missing c d :
  c ∉ columns d →
  (p ← getitem c; setitem c (of_float <$> (to_numeric <$> p))) d
  = Err (KeyError c).
Proof.
  intros Hc. by rewrite bind_apply, getitem_apply, decide_False.
Qed.

Lemma mask_step c k d :
  c ∈ columns d →
  Forall (λ r, is_num (cell_at c r)) (rows d) →
  (p ← getitem_float c; getitem_mask ((λ x, fgt x k) <$> p)) d
  = Ok (mkDF (columns d) (filter (λ r, gate c k r) (rows d)), d).
Proof.
  intros Hc Hn. rewrite bind_apply, getitem_float_apply by done.
  unfold getitem_mask. rewrite bind_apply. simpl.
  rewrite <- list_fmap_compose. unfold mret, Fr_ret. do 3 f_equal.
  apply (select_fmap (λ r, gate c k r)).
Qed.

Lemma stage1_arg_num lab d c :
  c = "Progress" ∨ c = "Q3" →
  Forall (λ r, is_num (cell_at c r)) (rows (stage1_arg lab d)).
Proof.
  intros Hc. unfold stage1_arg, assign. simpl.
  rewrite <- list_fmap_compose. apply Forall_fmap, Forall_true. intros r. simpl.
  destruct Hc as [-> | ->].
  - rewrite cell_at_insert_ne, cell_at_insert_eq by done. apply is_num_of_float.
  - rewrite cell_at_insert_eq. apply is_num_of_float.
Qed.

Lemma subid_step d :
  (n ← len; setitem "SubID" (range_cells 1 n)) d
  = Ok (tt, mkDF (add_col "SubID" (columns d))
                 (zip_with (λ (r : row) v, (r.1, <["SubID" := v]> r.2))
                           (rows d) (range_cells 1 (length (rows d))))).
Proof.
  rewrite bind_apply. unfold len. rewrite bind_apply. simpl.
  unfold setitem. rewrite bind_apply. simpl.
  rewrite decide_True; [done|].
  unfold range_cells. by rewrite length_fmap, length_seq.
Qed.

Lemma STAGE1_heap (h : heap) l d :
  h !! l = Some d →
  STAGE1 l h =
    match rows d !! 1 with
    | None => Err IndexError
    | Some r1 =>
        if decide ("Progress" ∈ columns d) then
          if decide ("Q3" ∈ columns d) then
            Ok (S (length h),
                <[l := stage1_arg r1.1 d]> h
                  ++ [stage1_mid r1.1 d; stage1_out r1.1 d])
          else Err (KeyError "Q3")
        else Err (KeyError "Progress")
    end.
Proof.
  intros Hl. unfold STAGE1.
  rewrite M_bind_apply, (on_apply _ _ _ _ Hl), bind_apply.
  unfold index_at at 1. rewrite bind_apply. simpl.
  destruct (rows d !! 1) as [r1|] eqn:E1; [|done]. simpl.
  set (d0 := mkDF (columns d) (filter (λ r : row, r.1 ≠ r1.1) (rows d))).
  assert (Hlt : l < length h) by eauto using lookup_lt_Some.
  assert (Hl0 : <[l := d0]> h !! l = Some d0) by by apply list_lookup_insert_eq.
  rewrite M_bind_apply, (on_apply _ _ _ _ Hl0).
  destruct (decide ("Progress" ∈ columns d)) as [HP|HP];
    [|by rewrite coerce_step_missing].
  rewrite coerce_step by done. cbv beta iota. rewrite list_insert_insert_eq.
  set (d1 := assign "Progress" (coerced "Progress") d0).
  assert (Hl1 : <[l := d1]> h !! l = Some d1) by by apply list_lookup_insert_eq.
  rewrite M_bind_apply, (on_apply _ _ _ _ Hl1).
  assert (HQ1 : "Q3" ∈ columns d1 ↔ "Q3" ∈ columns d).
  { unfold d1, assign. simpl. rewrite elem_of_add_col. split; [by intros [|]|auto]. }
  destruct (decide ("Q3" ∈ columns d)) as [HQ|HQ];
    [|rewrite coerce_step_missing; [done|by rewrite HQ1]].
  rewrite coerce_step by by rewrite HQ1. cbv beta iota. rewrite list_insert_insert_eq.
  change (assign "Q3" (coerced "Q3") d1) with (stage1_arg r1.1 d).
  set (a := stage1_arg r1.1 d).
  assert (Hla : <[l := a]> h !! l = Some a) by by apply list_lookup_insert_eq.
  assert (HPa : "Progress" ∈ columns a).
  { unfold a, stage1_arg, assign. simpl. rewrite !elem_of_add_col. auto. }
  assert (HQa : "Q3" ∈ columns a).
  { unfold a, stage1_arg, assign. simpl. rewrite !elem_of_add_col. auto. }
  rewrite M_bind_apply, (on_apply _ _ _ _ Hla).
  rewrite mask_step by (done || apply stage1_arg_num; auto). cbv beta iota.
  rewrite list_insert_insert_eq.
  change (mkDF (columns a) (filter (λ r, gate "Progress" 99 r) (rows a)))
    with (stage1_mid r1.1 d).
  rewrite M_bind_apply. unfold alloc at 1.
  set (h1 := <[l := a]> h).
  set (m := stage1_mid r1.1 d).
  assert (Hlm : (h1 ++ [m]) !! length h1 = Some m) by by apply list_lookup_middle.
  rewrite M_bind_apply, (on_apply _ _ _ _ Hlm).
  rewrite mask_step; [| done |].
  2:{ unfold m, stage1_mid. simpl.
      apply Forall_filter_keep, (stage1_arg_num r1.1 d "Q3"); auto. }
  cbv beta iota. rewrite (list_insert_id _ _ _ Hlm).
  change (mkDF (columns m) (filter (λ r, gate "Q3" 18 r) (rows m)))
    with (stage1_sel r1.1 d).
  set (s := stage1_sel r1.1 d).
  rewrite M_bind_apply. unfold alloc at 1.
  assert (Hls : ((h1 ++ [m]) ++ [s]) !! length (h1 ++ [m]) = Some s)
    by by apply list_lookup_middle.
  rewrite M_bind_apply, (on_apply _ _ _ _ Hls).
  rewrite subid_step. cbv beta iota. unfold mret, M_ret. do 2 f_equal.
  - unfold h1. rewrite length_app, length_insert. simpl. lia.
  - rewrite insert_app_r_alt by done. rewrite Nat.sub_diag. simpl.
    by rewrite <- app_assoc.
Qed.

Lemma run_STAGE1 d :
  run STAGE1 d =
    match rows d !! 1 with
    | None => Err IndexError
    | Some r1 =>
        if decide ("Progress" ∈ columns d) then
          if decide ("Q3" ∈ columns d) then Ok (stage1_out r1.1 d)
          else Err (KeyError "Q3")
        else Err (KeyError "Progress")
    end.
Proof.
  unfold run. rewrite (STAGE1_heap [d] 0 d) by done.
  destruct (rows d !! 1); [|done]. by repeat case_decide.
Qed.

Lemma argument_after_STAGE1 d :
  argument_after STAGE1 d =
    match rows d !! 1 with
    | None => Err IndexError
    | Some r1 =>
        if decide ("Progress" ∈ columns d) then
          if decide ("Q3" ∈ columns d) then Ok (stage1_arg r1.1 d)
          else Err (KeyError "Q3")
        else Err (KeyError "Progress")
    end.
Proof.
  unfold argument_after. rewrite (STAGE1_heap [d] 0 d) by done.
  destruct (rows d !! 1); [|done]. by repeat case_decide.
Qed.

(** The two coercions of a raw row. *)
Definition coerce_row (r : row) : row :=
  (r.1, <["Q3" := coerced "Q3" r]> (<["Progress" := coerced "Progress" r]> r.2)).

Lemma stage1_arg_rows lab d :
  rows (stage1_arg lab d)
  = coerce_row <$> filter (λ r : row, r.1 ≠ lab) (rows d).
Proof.
  unfold stage1_arg, assign. simpl. rewrite <- list_fmap_compose.
  apply list_fmap_ext. intros _ [i m] _. unfold coerce_row, coerced. simpl.
  by rewrite cell_at_insert_ne.
Qed.

Lemma gate_coerce_row (r : row) :
  gate "Progress" 99 (coerce_row r) && gate "Q3" 18 (coerce_row r) = passes r.
Proof.
  unfold gate, passes, coerce_row, coerced.
  rewrite cell_at_insert_eq, cell_at_insert_ne, cell_at_insert_eq by done.
  by rewrite !to_numeric_of_float.
Qed.

Lemma stage1_sel_rows lab d :
  rows (stage1_sel lab d)
  = coerce_row <$> filter (λ r, passes r)
                          (filter (λ r : row, r.1 ≠ lab) (rows d)).
Proof.
  unfold stage1_sel, stage1_mid. cbn [rows]. rewrite stage1_arg_rows.
  rewrite list_filter_filter, filter_fmap. f_equal.
  apply filter_ext_in. intros r _. rewrite <- gate_coerce_row.
  rewrite andb_True. tauto.
Qed.

Lemma stage1_out_length lab d :
  length (rows (stage1_out lab d)) = length (rows (stage1_sel lab d)).
Proof.
  unfold stage1_out, range_cells. cbn [rows].
  rewrite length_zip_with_l_eq; [done|]. by rewrite length_fmap, length_seq.
Qed.

Lemma stage1_out_labels lab d :
  labels (stage1_out lab d)
  = fst <$> filter (λ r, passes r) (filter (λ r : row, r.1 ≠ lab) (rows d)).
Proof.
  unfold labels, stage1_out, range_cells. cbn [rows].
  rewrite (fmap_zip_with_left _ _ fst);
    [| done | by rewrite length_fmap, length_seq].
  rewrite stage1_sel_rows, <- list_fmap_compose. by apply list_fmap_ext.
Qed.

Lemma fgt_Some x k : fgt x k = true → ∃ q, x = Some q ∧ (k < q)%Q.
Proof.
  destruct x as [q|]; [|done]. simpl. intros Hq. exists q. split; [done|].
  apply Qnot_le_lt. intros Hle%Qle_bool_iff. by rewrite Hle in Hq.
Qed.

Lemma passes_cells (r : row) :
  passes r = true →
  ∃ p q, coerced "Progress" r = CNum p ∧ coerced "Q3" r = CNum q
         ∧ (99 < p)%Q ∧ (18 < q)%Q.
Proof.
  unfold passes, coerced. intros [HP HQ]%andb_true_iff.
  apply fgt_Some in HP as (p & -> & Hp). apply fgt_Some in HQ as (q & -> & Hq).
  by exists p, q.
Qed.

End Stage1.

(** ** Lists of rows *)

Lemma filter_all {A} (P : A → Prop) `{!∀ x, Decision (P x)} (l : list A) :
  Forall P l → filter P l = l.
Proof.
  induction 1 as [|x l Hx _ IH]; [done|].
  by rewrite filter_cons_True, IH.
Qed.

Lemma filter_split_length {A} (P Q : A → Prop)
    `{!∀ x, Decision (P x)} `{!∀ x, Decision (Q x)} (l : list A) :
  length (filter P (filter Q l)) + length (filter P (filter (λ x, ¬ Q x) l))
  = length (filter P l).
Proof.
  induction l as [|x l IH]; [done|]. rewrite !filter_cons.
  destruct (decide (Q x)) as [HQ|HQ].
  - rewrite decide_False by tauto. rewrite filter_cons.
    destruct (decide (P x)); simpl; lia.
  - rewrite decide_True by done. rewrite filter_cons.
    destruct (decide (P x)); simpl; lia.
Qed.

(** With distinct index labels, dropping the label found at position 1 drops
    that one row. *)
Lemma drop_label_unique (l : list (Z * gmap string cell)) r1 :
  NoDup (fst <$> l) → l !! 1 = Some r1 →
  filter (λ r : row, r.1 ≠ r1.1) l = delete 1 l.
Proof.
  destruct l as [|r0 [|r1' l]]; [done..|]. intros Hnd [= ->].
  rewrite !fmap_cons in Hnd.
  apply NoDup_cons in Hnd as [Hr0 Hnd]. apply NoDup_cons in Hnd as [Hr1 _].
  rewrite filter_cons_True by (intros E; apply Hr0; rewrite E; left).
  rewrite filter_cons_False by (intros E; by apply E).
  simpl. f_equal. apply filter_all, Forall_forall. intros r Hr E.
  apply Hr1. rewrite <- E. by apply list_elem_of_fmap_2.
Qed.

(** ** The Exclusion Filter *)

Section ExclusionFilter.
Context `{Numeric} `{SpellChecker}.

Lemma stage1_out_cells lab d (r' : row) :
  r' ∈ rows (stage1_out lab d) →
  ∃ r, passes r = true
       ∧ r'.2 !! "Progress" = Some (coerced "Progress" r)
       ∧ r'.2 !! "Q3" = Some (coerced "Q3" r).
Proof.
  unfold stage1_out. cbn [rows].
  intros (r0 & v & -> & Hr0 & _)%elem_of_zip_with.
  rewrite stage1_sel_rows in Hr0.
  apply list_elem_of_fmap in Hr0 as (r & -> & Hr).
  apply list_elem_of_filter in Hr as [Hp _]. exists r. split.
  { by apply Is_true_true. }
  unfold coerce_row. simpl.
  rewrite !lookup_insert_ne, lookup_insert_eq by done.
  rewrite lookup_insert_ne, lookup_insert_eq by done. done.
Qed.

(** C1.  The filter returns as many records as there are input records that
    meet both criteria (each gatekeeping cell, coerced to a number, strictly
    above its threshold) once the structurally dropped rows are left out:
    the count of passing input records less the passing ones among the rows
    dropped for carrying the label found at position 1, which is the one row
    at position 1 when the labels are distinct.  A cell that is missing or
    not a number never passes: every record returned holds numbers above 99
    and 18 in the two columns. *)
Theorem C1_exclusion_filter_count d d' :
  run STAGE1 d = Ok d' →
  ∃ r1, rows d !! 1 = Some r1
    ∧ length (rows d')
      + length (filter (λ r, passes r)
                       (filter (λ r : row, ¬ r.1 ≠ r1.1) (rows d)))
      = length (filter (λ r, passes r) (rows d))
    ∧ (NoDup (labels d) →
       length (rows d')
       = length (filter (λ r, passes r) (delete 1 (rows d))))
    ∧ ∀ r' : row, r' ∈ rows d' →
        ∃ p q, r'.2 !! "Progress" = Some (CNum p)
               ∧ r'.2 !! "Q3" = Some (CNum q)
               ∧ (99 < p)%Q ∧ (18 < q)%Q.
Proof.
  rewrite run_STAGE1. destruct (rows d !! 1) as [r1|] eqn:E1; [|done].
  repeat case_decide; try done. intros [= <-]. exists r1.
  assert (Hlen : length (rows (stage1_out r1.1 d))
                 = length (filter (λ r, passes r)
                             (filter (λ r : row, r.1 ≠ r1.1) (rows d)))).
  { by rewrite stage1_out_length, stage1_sel_rows, length_fmap. }
  split; [done|]. split; [|split].
  - rewrite Hlen. apply filter_split_length.
  - intros Hnd. rewrite Hlen. by rewrite (drop_label_unique _ r1).
  - intros r' (r & Hr & HP & HQ)%stage1_out_cells.
    apply passes_cells in Hr as (p & q & Ep & Eq & Hp & Hq).
    exists p, q. by rewrite HP, HQ, Ep, Eq.
Qed.

(** C10.  The structural drop does not look at the row: a frame with fewer
    than two rows makes the stage raise, and otherwise no row carrying the
    label found at position 1 is returned, whether or not it meets the
    criteria; what is returned are the passing rows among the others, in
    their order. *)
Theorem C10_structural_drop_unconditional d :
  (length (rows d) < 2 → run STAGE1 d = Err IndexError)
  ∧ (∀ d' r1, rows d !! 1 = Some r1 → run STAGE1 d = Ok d' →
       (fst r1 ∉ labels d')
       ∧ (labels d'
          = fst <$> filter (λ r, passes r)
                           (filter (λ r : row, r.1 ≠ r1.1) (rows d)))).
Proof.
  split.
  - intros Hlen. rewrite run_STAGE1.
    by rewrite (lookup_ge_None_2 (rows d) 1) by lia.
  - intros d' r1 E1. rewrite run_STAGE1, E1.
    repeat case_decide; try done. intros [= <-].
    rewrite stage1_out_labels. split; [|done].
    intros (r & Er & Hr)%list_elem_of_fmap.
    apply list_elem_of_filter in Hr as [_ Hr].
    apply list_elem_of_filter in Hr as [Hr _]. by apply Hr.
Qed.

End ExclusionFilter.
(** ** Stages that work in place, and the runner *)

Section InPlace.
Context `{Numeric} `{SpellChecker}.

Lemma inplace_heap {A} (body : Fr A) (h : heap) l d :
  h !! l = Some d →
  (on l body;; mret l) h
  = match body d with
    | Ok (_, d') => Ok (l, <[l := d']> h)
    | Err e => Err e
    end.
Proof.
  intros Hl. rewrite M_bind_apply, (on_apply _ _ _ _ Hl).
  by destruct (body d) as [[]|].
Qed.

Lemma run_inplace {A} (body : Fr A) d :
  run (λ df, on df body;; mret df) d
  = match body d with Ok (_, d') => Ok d' | Err e => Err e end.
Proof.
  unfold run. rewrite (inplace_heap body [d] 0 d) by done.
  by destruct (body d) as [[]|].
Qed.

Lemma argument_after_inplace {A} (body : Fr A) d :
  argument_after (λ df, on df body;; mret df) d
  = run (λ df, on df body;; mret df) d.
Proof.
  unfold argument_after, run. rewrite (inplace_heap body [d] 0 d) by done.
  by destruct (body d) as [[]|].
Qed.

Lemma inplace_run_heap {A} (body : Fr A) (h : heap) l d :
  h !! l = Some d →
  (on l body;; mret l) h
  = match run (λ df, on df body;; mret df) d with
    | Ok d' => Ok (l, <[l := d']> h)
    | Err e => Err e
    end.
Proof.
  intros Hl. rewrite run_inplace, (inplace_heap _ _ _ d) by done.
  by destruct (body d) as [[]|].
Qed.

Lemma copy_heap (h : heap) l d :
  h !! l = Some d → copy l h = Ok (length h, h ++ [d]).
Proof.
  intros Hl. unfold copy. rewrite M_bind_apply, (on_apply _ _ _ _ Hl).
  unfold get. by rewrite list_insert_id.
Qed.

(** The store after the loop body of [PROCESS]: the frame read from the
    file, the copy [STAGE1] worked on and its first selection, then the
    results of the stages, the fourth overwritten by the fifth. *)
Lemma PROCESS_store d l h :
  PROCESS 0 [d] = Ok (l, h) →
  ∃ d1 d2 d3 d4 d5 a m,
    run STAGE1 d = Ok d1 ∧ run STAGE2 d1 = Ok d2 ∧ run STAGE3 d2 = Ok d3
    ∧ run STAGE4 d3 = Ok d4 ∧ run STAGE5 d4 = Ok d5
    ∧ l = 6 ∧ h = [d; a; m; d1; d2; d3; d5].
Proof.
  unfold PROCESS. rewrite M_bind_apply, (copy_heap [d] 0 d) by done.
  cbv beta iota. rewrite M_bind_apply.
  rewrite (STAGE1_heap _ 1 d) by done. rewrite run_STAGE1.
  destruct (rows d !! 1) as [r1|]; [|done].
  repeat case_decide; try done. cbn [length app insert list_insert].
  set (d1 := stage1_out r1.1 d).
  rewrite M_bind_apply, (copy_heap _ 3 d1) by done. cbv beta iota.
  rewrite M_bind_apply. unfold STAGE2 at 1.
  rewrite (inplace_run_heap _ _ 4 d1) by done. fold STAGE2.
  destruct (run STAGE2 d1) as [d2|] eqn:E2; [|done]. cbn [length app insert list_insert].
  rewrite M_bind_apply, (copy_heap _ 4 d2) by done. cbv beta iota.
  rewrite M_bind_apply. unfold STAGE3 at 1.
  rewrite (inplace_run_heap _ _ 5 d2) by done. fold STAGE3.
  destruct (run STAGE3 d2) as [d3|] eqn:E3; [|done]. cbn [length app insert list_insert].
  rewrite M_bind_apply, (copy_heap _ 5 d3) by done. cbv beta iota.
  rewrite M_bind_apply. unfold STAGE4 at 1.
  rewrite (inplace_run_heap _ _ 6 d3) by done. fold STAGE4.
  destruct (run STAGE4 d3) as [d4|] eqn:E4; [|done]. cbn [length app insert list_insert].
  rewrite M_bind_apply. unfold STAGE5 at 1.
  rewrite (inplace_run_heap _ _ 6 d4) by done. fold STAGE5.
  destruct (run STAGE5 d4) as [d5|] eqn:E5; [|done]. cbn [length app insert list_insert].
  unfold mret, M_ret. intros [= <- <-]. by eexists d1, d2, d3, d4, d5, _, _.
Qed.

End InPlace.
(** ** The Field Recoder *)

Section FieldRecoder.
Context `{Numeric} `{SpellChecker}.

Definition stage2_label (c : string) : string :=
  let c := if decide (c = "Q4") then "Gender" else c in
  let c := if decide (c = "Q5") then "Education" else c in
  if decide (c = "Q6") then "Native Language" else c.

Definition recode_map (m : gmap string cell) : gmap string cell :=
  foldl (λ m (cm : string * list (string * string)), alter (recode cm.2) cm.1 m)
        m recode_dict.

Definition stage2_row (r : row) : row :=
  let r := foldl (λ r (kv : string * string), rename_row kv.1 kv.2 r)
                 r renaming_dict in
  (r.1, recode_map r.2).

Lemma mret_apply {A} (a : A) (d : DataFrame) :
  (mret a : Fr A) d = Ok (a, d).
Proof. reflexivity. Qed.

Lemma rename_inplace_apply old new d :
  rename_inplace old new d
  = Ok (tt, mkDF ((λ c, if decide (c = old) then new else c) <$> columns d)
                 (rename_row old new <$> rows d)).
Proof. reflexivity. Qed.

Lemma replace_inplace_apply c m d :
  replace_inplace c m d
  = Ok (tt, mkDF (columns d)
                 ((λ r : row, (r.1, alter (recode m) c r.2)) <$> rows d)).
Proof. reflexivity. Qed.

Lemma STAGE2_body_apply d :
  STAGE2_body d
  = Ok (tt, mkDF (stage2_label <$> columns d) (stage2_row <$> rows d)).
Proof.
  unfold STAGE2_body, stage2_row, recode_map, renaming_dict, recode_dict.
  cbn [for_ foldl fst snd].
  repeat first [ rewrite bind_apply | rewrite mret_apply
               | rewrite rename_inplace_apply
               | rewrite replace_inplace_apply | progress cbv beta iota ].
  cbn [columns rows].
  rewrite <- !list_fmap_compose. do 3 f_equal.
Qed.

Lemma rename_row_old old new (r : row) :
  old ≠ new → (rename_row old new r).2 !! old = None.
Proof.
  intros Hne. unfold rename_row. destruct (r.2 !! old) eqn:E; [|done].
  simpl. by rewrite lookup_insert_ne, lookup_delete_eq.
Qed.

Lemma rename_row_absent old new (r : row) :
  r.2 !! old = None → rename_row old new r = r.
Proof. intros E. unfold rename_row. by rewrite E. Qed.

Lemma rename_row_keeps_absent old new k (r : row) :
  k ≠ new → r.2 !! k = None → (rename_row old new r).2 !! k = None.
Proof.
  intros Hne Hk. unfold rename_row. destruct (r.2 !! old) eqn:E; [|done].
  simpl. rewrite lookup_insert_ne by done.
  by apply lookup_delete_None; right.
Qed.

Lemma rename_row_label old new (r : row) : (rename_row old new r).1 = r.1.
Proof. unfold rename_row. by destruct (r.2 !! old). Qed.

Lemma recode_map_None m k : recode_map m !! k = None ↔ m !! k = None.
Proof.
  unfold recode_map, recode_dict. cbn [foldl fst snd].
  by rewrite !lookup_alter_None.
Qed.

Lemma assoc_In {V} k (v : V) m : assoc k m = Some v → (k, v) ∈ m.
Proof.
  induction m as [|[k' v'] m IH]; [done|]. simpl.
  case_decide; [intros [= ->]; subst; left|right; auto].
Qed.

(** A recoding whose codes are not among its keys is idempotent. *)
Lemma recode_idem m c :
  Forall (λ kv : string * string, assoc kv.2 m = None) m →
  recode m (recode m c) = recode m c.
Proof.
  intros Hm. destruct c as [s| |]; try done. simpl.
  destruct (assoc s m) as [s'|] eqn:E; simpl; [|by rewrite E].
  apply assoc_In in E. rewrite Forall_forall in Hm.
  pose proof (Hm _ E) as Hs. simpl in Hs. by rewrite Hs.
Qed.

Lemma codes_not_keys :
  Forall (λ cm : string * list (string * string),
            Forall (λ kv : string * string, assoc kv.2 cm.2 = None) cm.2)
         recode_dict.
Proof. unfold recode_dict. repeat constructor. Qed.

Lemma recode_map_idem m : recode_map (recode_map m) = recode_map m.
Proof.
  pose proof codes_not_keys as Hc. unfold recode_dict in Hc.
  apply Forall_cons in Hc as [H1 Hc]. apply Forall_cons in Hc as [H2 Hc].
  apply Forall_cons in Hc as [H3 _]. cbn [fst snd] in *.
  apply map_eq. intros k. unfold recode_map, recode_dict.
  cbn [foldl fst snd]. rewrite !lookup_alter.
  repeat case_decide; subst; try done;
    destruct (m !! _); simpl; f_equal; by apply recode_idem.
Qed.

Lemma stage2_row_idem r : stage2_row (stage2_row r) = stage2_row r.
Proof.
  set (r' := stage2_row r).
  assert (H4 : r'.2 !! "Q4" = None).
  { unfold r', stage2_row, renaming_dict. cbn [foldl fst snd].
    apply recode_map_None. do 2 (apply rename_row_keeps_absent; [done|]).
    by apply rename_row_old. }
  assert (H5 : r'.2 !! "Q5" = None).
  { unfold r', stage2_row, renaming_dict. cbn [foldl fst snd].
    apply recode_map_None. apply rename_row_keeps_absent; [done|].
    by apply rename_row_old. }
  assert (H6 : r'.2 !! "Q6" = None).
  { unfold r', stage2_row, renaming_dict. cbn [foldl fst snd].
    apply recode_map_None. by apply rename_row_old. }
  unfold stage2_row at 1. unfold renaming_dict. cbn [foldl fst snd].
  rewrite (rename_row_absent "Q4") by done.
  rewrite (rename_row_absent "Q5") by done.
  rewrite (rename_row_absent "Q6") by done.
  unfold r', stage2_row. cbn [fst snd]. by rewrite recode_map_idem.
Qed.

Lemma stage2_label_idem c : stage2_label (stage2_label c) = stage2_label c.
Proof. unfold stage2_label. by repeat case_decide. Qed.

Lemma run_STAGE2 d :
  run STAGE2 d = Ok (mkDF (stage2_label <$> columns d) (stage2_row <$> rows d)).
Proof. unfold STAGE2. by rewrite run_inplace, STAGE2_body_apply. Qed.

(** C8.  The recoder never fails, and applying it to its own result gives
    that result again: the codes of each recoding are not among its keys,
    so a recoded value is left alone, as is any value that is not a key. *)
Theorem C8_field_recoder_idempotent d :
  ∃ d1, run STAGE2 d = Ok d1 ∧ run STAGE2 d1 = Ok d1
    ∧ Forall (λ cm : string * list (string * string),
                ∀ v, recode cm.2 (recode cm.2 v) = recode cm.2 v)
             recode_dict
    ∧ ∀ m s, assoc s m = None → recode m (CStr s) = CStr s.
Proof.
  eexists. split; [apply run_STAGE2|]. split; [|split].
  - rewrite run_STAGE2. cbn [columns rows]. do 2 f_equal.
    + rewrite <- list_fmap_compose. apply list_fmap_ext.
      intros _ c _. apply stage2_label_idem.
    + rewrite <- list_fmap_compose. apply list_fmap_ext.
      intros _ r _. apply stage2_row_idem.
  - eapply Forall_impl; [apply codes_not_keys|].
    intros cm Hcm v. by apply recode_idem.
  - intros m s E. simpl. by rewrite E.
Qed.

End FieldRecoder.
(** ** What a method leaves alone *)

(** [m] relates the frame it ends with to the one it started from by [R]. *)
Definition fr_rel {A} (R : DataFrame → DataFrame → Prop) (m : Fr A) : Prop :=
  ∀ d a d', m d = Ok (a, d') → R d d'.

(** [m] does not write. *)
Definition fr_readonly {A} (m : Fr A) : Prop := fr_rel (λ d d', d' = d) m.

Section Relating.
Context (R : DataFrame → DataFrame → Prop).
Context (R_refl : ∀ d, R d d) (R_trans : ∀ d1 d2 d3, R d1 d2 → R d2 d3 → R d1 d3).

Lemma fr_rel_ret {A} (a : A) : fr_rel R (mret a).
Proof. intros d a' d' [= _ <-]. apply R_refl. Qed.

Lemma fr_rel_bind {A B} (m : Fr A) (k : A → Fr B) :
  fr_rel R m → (∀ a, fr_rel R (k a)) → fr_rel R (m ≫= k).
Proof.
  intros Hm Hk d b d'. rewrite bind_apply.
  destruct (m d) as [[a d1]|] eqn:E; [|done]. intros Hb.
  eapply R_trans; [by eapply Hm|by eapply Hk].
Qed.

Lemma fr_rel_for {A} (l : list A) (body : A → Fr unit) :
  (∀ x, x ∈ l → fr_rel R (body x)) → fr_rel R (for_ l body).
Proof.
  induction l as [|x l IH]; intros Hb; simpl.
  - apply fr_rel_ret.
  - apply fr_rel_bind; [apply Hb; left|intros _].
    apply IH. intros y Hy. apply Hb. by right.
Qed.

Lemma fr_rel_readonly {A} (m : Fr A) : fr_readonly m → fr_rel R m.
Proof. intros Hm d a d' E. rewrite (Hm _ _ _ E). apply R_refl. Qed.

Lemma fr_rel_if {A} (P : Prop) `{!Decision P} (m1 m2 : Fr A) :
  fr_rel R m1 → fr_rel R m2 → fr_rel R (if decide P then m1 else m2).
Proof. by case_decide. Qed.

End Relating.

Section ReadOnly.
Context `{Numeric}.

Lemma ro_ret {A} (a : A) : fr_readonly (mret a).
Proof. by apply fr_rel_ret. Qed.

Lemma ro_bind {A B} (m : Fr A) (k : A → Fr B) :
  fr_readonly m → (∀ a, fr_readonly (k a)) → fr_readonly (m ≫= k).
Proof. intros Hm Hk. by apply fr_rel_bind; [intros d1 d2 d3 -> ->| |]. Qed.

Lemma ro_get : fr_readonly get.
Proof. by intros d a d' [= _ <-]. Qed.

Lemma ro_raise {A} e : fr_readonly (raise e : Fr A).
Proof. by intros d a d'. Qed.

Lemma ro_lift {A} (r : result A) : fr_readonly (lift r).
Proof. intros d a d'. unfold lift. by destruct r; intros [= _ <-]. Qed.

Lemma ro_len : fr_readonly len.
Proof. apply ro_bind; [apply ro_get|intros; apply ro_ret]. Qed.

Lemma ro_get_columns : fr_readonly get_columns.
Proof. apply ro_bind; [apply ro_get|intros; apply ro_ret]. Qed.

Lemma ro_getitem c : fr_readonly (getitem c).
Proof.
  apply ro_bind; [apply ro_get|intros d].
  case_decide; [apply ro_ret|apply ro_raise].
Qed.

Lemma ro_getitem_float c : fr_readonly (getitem_float c).
Proof. apply ro_bind; [apply ro_getitem|intros; apply ro_lift]. Qed.

Lemma ro_loc_columns cs : fr_readonly (loc_columns cs).
Proof.
  apply ro_bind; [apply ro_get|intros d].
  destruct (filter _ cs); [apply ro_lift|apply ro_raise].
Qed.

Lemma ro_add_columns c0 cs : fr_readonly (add_columns c0 cs).
Proof.
  apply ro_bind; [apply ro_getitem_float|intros x0].
  assert (Hacc : fr_readonly (mret x0 : Fr (list (option Q)))) by apply ro_ret.
  revert Hacc. generalize (mret x0 : Fr (list (option Q))).
  induction cs as [|c cs IH]; intros acc Hacc; [done|]. simpl. apply IH.
  apply ro_bind; [done|intros x].
  apply ro_bind; [apply ro_getitem_float|intros; apply ro_ret].
Qed.

End ReadOnly.

(** ** Subject identifiers through the later stages *)

Section SubjectIds.
Context `{Numeric} `{SpellChecker}.

(** The row keeps its label and, where it is a number, its identifier. *)
Definition row_keeps_id (r r' : row) : Prop :=
  r'.1 = r.1
  ∧ ∀ q, r.2 !! "SubID" = Some (CNum q) → r'.2 !! "SubID" = Some (CNum q).

Definition keeps_ids (d d' : DataFrame) : Prop :=
  Forall2 row_keeps_id (rows d) (rows d').

Lemma keeps_ids_refl d : keeps_ids d d.
Proof. apply Forall_Forall2_diag, Forall_true. by intros r. Qed.

Lemma keeps_ids_trans d1 d2 d3 :
  keeps_ids d1 d2 → keeps_ids d2 d3 → keeps_ids d1 d3.
Proof.
  apply Forall2_trans. intros r1 r2 r3 [E1 H1] [E2 H2].
  split; [congruence|auto].
Qed.

Lemma keeps_ids_fmap (g : row → row) d cols :
  (∀ r, row_keeps_id r (g r)) → keeps_ids d (mkDF cols (g <$> rows d)).
Proof.
  intros Hg. apply Forall2_fmap_r, Forall_Forall2_diag, Forall_true.
  intros r. apply Hg.
Qed.

Lemma keeps_setitem c vs :
  c ≠ "SubID" → fr_rel keeps_ids (setitem c vs).
Proof.
  intros Hc d a d'. unfold setitem. rewrite bind_apply. simpl.
  case_decide as Hlen; [|done]. intros [= _ <-]. unfold keeps_ids. simpl.
  apply Forall2_same_length_lookup_2.
  { by rewrite length_zip_with_l_eq. }
  intros i r r' Hr (r0 & v & -> & Hr0 & _)%lookup_zip_with_Some.
  rewrite Hr in Hr0. injection Hr0 as <-. split; [done|]. simpl.
  intros q Hq. by rewrite lookup_insert_ne.
Qed.

Lemma keeps_setitem_scalar c v :
  c ≠ "SubID" → fr_rel keeps_ids (setitem_scalar c v).
Proof.
  intros Hc. apply fr_rel_bind; [apply keeps_ids_trans| |].
  - apply fr_rel_readonly; [apply keeps_ids_refl|apply ro_len].
  - intros n. by apply keeps_setitem.
Qed.

(** Coercing a column keeps the numbers in it. *)
Lemma keeps_coerce c :
  fr_rel keeps_ids
    (s ← getitem c; setitem c (of_float <$> (to_numeric <$> s))).
Proof.
  intros d a d'. destruct (decide (c ∈ columns d)) as [Hc|Hc].
  - rewrite coerce_step by done. intros [= _ <-].
    apply keeps_ids_fmap. intros r. split; [done|]. simpl. intros q Hq.
    destruct (decide (c = "SubID")) as [->|Hne].
    + rewrite lookup_insert_eq. unfold coerced, cell_at. by rewrite Hq.
    + by rewrite lookup_insert_ne.
  - by rewrite coerce_step_missing.
Qed.

Lemma keeps_rename old new :
  old ≠ "SubID" → new ≠ "SubID" → fr_rel keeps_ids (rename_inplace old new).
Proof.
  intros Ho Hn d a d'. rewrite rename_inplace_apply. intros [= _ <-].
  apply keeps_ids_fmap. intros r. split; [apply rename_row_label|].
  unfold rename_row. destruct (r.2 !! old); [|done]. simpl. intros q Hq.
  by rewrite lookup_insert_ne, lookup_delete_ne.
Qed.

Lemma keeps_replace c m : fr_rel keeps_ids (replace_inplace c m).
Proof.
  intros d a d'. rewrite replace_inplace_apply. intros [= _ <-].
  apply keeps_ids_fmap. intros r. split; [done|]. simpl. intros q Hq.
  rewrite lookup_alter. case_decide; [subst|done]. by rewrite Hq.
Qed.

Lemma keeps_drop_columns cs :
  "SubID" ∉ cs → fr_rel keeps_ids (drop_columns_inplace cs).
Proof.
  intros Hcs d a d'. unfold drop_columns_inplace. rewrite bind_apply. simpl.
  intros [= _ <-]. apply keeps_ids_fmap. intros r. split; [done|]. simpl.
  intros q Hq. by rewrite lookup_foldr_delete_not_elem_of.
Qed.


Lemma not_in_list (c : string) (l : list string) :
  bool_decide (c ∈ l) = false → c ∉ l.
Proof. apply bool_decide_eq_false. Qed.

Ltac keeps_step :=
  first
    [ apply keeps_coerce
    | apply keeps_setitem; done
    | apply fr_rel_ret; apply keeps_ids_refl
    | apply fr_rel_readonly;
        [ apply keeps_ids_refl
        | first [ apply ro_get_columns | apply ro_getitem_float
                | apply ro_getitem | apply ro_loc_columns
                | apply ro_add_columns | apply ro_len | apply ro_lift ] ]
    | apply fr_rel_bind; [ apply keeps_ids_trans | | intros ? ] ].

Lemma keeps_STAGE2 : fr_rel keeps_ids STAGE2_body.
Proof.
  apply fr_rel_bind; [apply keeps_ids_trans| |intros _].
  - apply fr_rel_for; [apply keeps_ids_refl|apply keeps_ids_trans|].
    intros kv Hkv. revert kv Hkv. apply Forall_forall.
    repeat constructor; by apply keeps_rename.
  - apply fr_rel_for; [apply keeps_ids_refl|apply keeps_ids_trans|].
    intros cm _. apply keeps_replace.
Qed.

Lemma keeps_STAGE3 : fr_rel keeps_ids STAGE3_body.
Proof.
  apply fr_rel_bind; [apply keeps_ids_trans| |intros _].
  - apply fr_rel_for; [apply keeps_ids_refl|apply keeps_ids_trans|].
    intros c Hc. revert c Hc. apply Forall_forall.
    repeat constructor; by apply keeps_setitem_scalar.
  - apply keeps_drop_columns. by apply not_in_list.
Qed.

Lemma keeps_binary_items : fr_rel keeps_ids binary_items.
Proof.
  apply fr_rel_bind; [apply keeps_ids_trans|keeps_step|intros cols].
  apply fr_rel_for; [apply keeps_ids_refl|apply keeps_ids_trans|].
  intros col _. case_decide as Hcol; [|keeps_step].
  assert (col ≠ "SubID").
  { intros ->. revert Hcol. by apply not_in_list. }
  repeat keeps_step.
Qed.

Lemma keeps_numeric_columns : fr_rel keeps_ids numeric_columns.
Proof.
  apply fr_rel_bind; [apply keeps_ids_trans|keeps_step|intros cols].
  apply fr_rel_for; [apply keeps_ids_refl|apply keeps_ids_trans|].
  intros col _. case_decide; keeps_step.
Qed.

Lemma keeps_adjust_Q11 : fr_rel keeps_ids adjust_Q11.
Proof.
  apply fr_rel_bind; [apply keeps_ids_trans|keeps_step|intros cols].
  case_decide; repeat keeps_step.
Qed.

Lemma keeps_interaction_scores : fr_rel keeps_ids interaction_scores.
Proof. unfold interaction_scores. repeat keeps_step. Qed.

Lemma keeps_filler_scores : fr_rel keeps_ids filler_scores.
Proof. unfold filler_scores. repeat keeps_step. Qed.

Lemma keeps_STAGE4 : fr_rel keeps_ids STAGE4_body.
Proof.
  unfold STAGE4_body.
  repeat (apply fr_rel_bind; [apply keeps_ids_trans| |intros _]);
    auto using keeps_binary_items, keeps_numeric_columns, keeps_adjust_Q11,
      keeps_interaction_scores, keeps_filler_scores.
Qed.

Lemma keeps_STAGE5 : fr_rel keeps_ids STAGE5_body.
Proof. unfold STAGE5_body. repeat keeps_step. Qed.

Lemma run_keeps {A} (body : Fr A) d d' :
  fr_rel keeps_ids body →
  run (λ df, on df body;; mret df) d = Ok d' → keeps_ids d d'.
Proof.
  intros Hb. rewrite run_inplace.
  destruct (body d) as [[a d1]|] eqn:E; [|done]. intros [= <-]. eauto.
Qed.

End SubjectIds.
(** ** Subject identifiers and the caller's frame *)

Section Pipeline.
Context `{Numeric} `{SpellChecker}.

Lemma stage1_out_subid lab d i (r : row) :
  rows (stage1_out lab d) !! i = Some r →
  r.2 !! "SubID" = Some (CNum (Qn (S i))).
Proof.
  unfold stage1_out, range_cells. cbn [rows].
  intros (r0 & v & -> & _ & Hv)%lookup_zip_with_Some.
  rewrite list_lookup_fmap in Hv.
  destruct (seq 1 _ !! i) as [n|] eqn:En; [|done].
  apply lookup_seq in En as [-> _]. injection Hv as <-.
  simpl. by rewrite lookup_insert_eq.
Qed.

Lemma stage1_out_sublist lab d : labels (stage1_out lab d) `sublist_of` labels d.
Proof.
  rewrite stage1_out_labels. unfold labels. apply fmap_sublist.
  etrans; apply sublist_filter.
Qed.

Lemma keeps_ids_cells d d' :
  keeps_ids d d' →
  labels d' = labels d
  ∧ ∀ i (r r' : row) q, rows d !! i = Some r → rows d' !! i = Some r' →
      r.2 !! "SubID" = Some (CNum q) → r'.2 !! "SubID" = Some (CNum q).
Proof.
  intros Hk. split.
  - unfold labels. symmetry. apply list_eq_Forall2, Forall2_fmap.
    eapply Forall2_impl; [apply Hk|]. by intros r r' [-> _].
  - intros i r r' q Hr Hr'.
    destruct (Forall2_lookup_lr _ _ _ _ _ _ Hk Hr Hr') as [_ Hq]. apply Hq.
Qed.

(** C2.  In whatever table [STAGE1] returns, the column [SubID] is there
    and holds 1, 2, ..., n down the n records returned ([SubID] at position
    [i], counted from 0, is [i + 1]), and these records stand in the order
    they had in the input: their labels are a subsequence of the input's.
    No later stage assigns the column: each of them returns the records it
    was given, in their order, and a record's number is still its number.
    So where the runner succeeds, the frame that comes out of the fifth
    stage has the records [STAGE1] returned, numbered as it numbered
    them. *)
Theorem C2_subject_ids_sequential d d1 :
  run STAGE1 d = Ok d1 →
  "SubID" ∈ columns d1
  ∧ (λ r : row, r.2 !! "SubID") <$> rows d1
    = (λ k, Some (CNum (inject_Z (Z.of_nat k)))) <$> seq 1 (length (rows d1))
  ∧ (∀ i (r : row), rows d1 !! i = Some r →
       r.2 !! "SubID" = Some (CNum (inject_Z (Z.of_nat i + 1))))
  ∧ labels d1 `sublist_of` labels d
  ∧ (∀ stage, stage ∈ [STAGE2; STAGE3; STAGE4; STAGE5] →
       ∀ x y, run stage x = Ok y →
         labels y = labels x
         ∧ ∀ i (r r' : row) q,
             rows x !! i = Some r → rows y !! i = Some r' →
             r.2 !! "SubID" = Some (CNum q) →
             r'.2 !! "SubID" = Some (CNum q))
  ∧ (∀ d5, run PROCESS d = Ok d5 →
       labels d5 = labels d1
       ∧ ∀ i (r : row), rows d5 !! i = Some r →
           r.2 !! "SubID" = Some (CNum (inject_Z (Z.of_nat i + 1)))).
Proof.
  intros E1.
  assert (Hout : ∃ lab, d1 = stage1_out lab d).
  { rewrite run_STAGE1 in E1. destruct (rows d !! 1) as [r1|]; [|done].
    repeat case_decide; try done. injection E1 as <-. by eexists. }
  destruct Hout as (lab & Hd1).
  assert (Hid : ∀ i (r : row), rows d1 !! i = Some r →
                  r.2 !! "SubID" = Some (CNum (inject_Z (Z.of_nat i + 1)))).
  { intros i r Hr. rewrite Hd1 in Hr.
    rewrite (stage1_out_subid _ _ _ _ Hr). unfold Qn. do 3 f_equal. lia. }
  split; [|split; [|split; [|split; [|split]]]].
  - rewrite Hd1. unfold stage1_out. cbn [columns]. apply elem_of_add_col.
    by left.
  - apply list_eq_same_length with (length (rows d1)).
    + by rewrite length_fmap, length_seq.
    + by rewrite length_fmap.
    + intros i x y Hi. rewrite !list_lookup_fmap.
      destruct (rows d1 !! i) as [r|] eqn:Er; [|done].
      rewrite (lookup_seq_lt _ _ _ Hi). cbn [fmap option_fmap option_map].
      intros [= <-] [= <-]. rewrite (Hid i r Er). do 3 f_equal. lia.
  - exact Hid.
  - rewrite Hd1. apply stage1_out_sublist.
  - intros stage Hst x y Hrun. apply keeps_ids_cells.
    repeat (apply elem_of_cons in Hst as [->|Hst]);
      [ apply (run_keeps _ _ _ keeps_STAGE2 Hrun)
      | apply (run_keeps _ _ _ keeps_STAGE3 Hrun)
      | apply (run_keeps _ _ _ keeps_STAGE4 Hrun)
      | apply (run_keeps _ _ _ keeps_STAGE5 Hrun)
      | by apply elem_of_nil in Hst ].
  - intros d5. unfold run at 1.
    destruct (PROCESS 0 [d]) as [[l h]|] eqn:E; [|done].
    apply PROCESS_store in E
      as (d1' & d2 & d3 & d4 & d5' & a & m & E1' & E2 & E3 & E4 & E5 & -> & ->).
    simpl. intros [= <-].
    assert (d1' = d1) as -> by congruence.
    assert (Hk : keeps_ids d1 d5').
    { apply (run_keeps _ _ _ keeps_STAGE2) in E2.
      apply (run_keeps _ _ _ keeps_STAGE3) in E3.
      apply (run_keeps _ _ _ keeps_STAGE4) in E4.
      apply (run_keeps _ _ _ keeps_STAGE5) in E5.
      eauto using keeps_ids_trans. }
    apply keeps_ids_cells in Hk as [Hl Hc]. split; [done|].
    intros i r5 Hr5.
    assert (Hlen : i < length (rows d1)).
    { apply (f_equal length) in Hl. unfold labels in Hl.
      rewrite !length_fmap in Hl. rewrite <- Hl.
      by eapply lookup_lt_Some. }
    apply lookup_lt_is_Some in Hlen as [r1 Hr1].
    eapply Hc; [done..|]. by apply Hid.
Qed.

(** C9, as the code has it.  A stage works on the object it is given.  For
    the four later stages the object passed in is the object returned: when
    the stage has returned, the caller's frame holds the stage's result.
    [STAGE1] returns a new object, and leaves in the caller's frame the rows
    not dropped, their two gatekeeping columns coerced.  The frame given to
    the runner is unchanged once the five stages have run, for the runner
    hands a copy to the first stage. *)
Theorem C9_stages_work_in_place d :
  argument_after STAGE2 d = run STAGE2 d
  ∧ argument_after STAGE3 d = run STAGE3 d
  ∧ argument_after STAGE4 d = run STAGE4 d
  ∧ argument_after STAGE5 d = run STAGE5 d
  ∧ (∀ d1, run STAGE1 d = Ok d1 →
       ∃ r1, rows d !! 1 = Some r1
             ∧ argument_after STAGE1 d = Ok (stage1_arg r1.1 d))
  ∧ (∀ d5, run PROCESS d = Ok d5 → argument_after PROCESS d = Ok d).
Proof.
  repeat split; try apply argument_after_inplace.
  - intros d1. rewrite run_STAGE1, argument_after_STAGE1.
    destruct (rows d !! 1) as [r1|]; [|done].
    repeat case_decide; try done. intros _. by exists r1.
  - intros d5. unfold run, argument_after.
    destruct (PROCESS 0 [d]) as [[l h]|] eqn:E; [|done].
    apply PROCESS_store in E
      as (d1 & d2 & d3 & d4 & d5' & a & m & _ & _ & _ & _ & _ & -> & ->).
    done.
Qed.

End Pipeline.
(** ** The Score Engine: every block as row-wise assignments *)

Section ScoreEngine.
Context `{Numeric}.

(** The values of the columns [cs] in a row, as floats. *)
Definition group (cs : list string) (r : row) : list (option Q) :=
  (λ c, to_numeric (cell_at c r)) <$> cs.

(** [x0 + x1 + ...], added from the left. *)
Definition sum_left (xs : list (option Q)) : option Q :=
  match xs with
  | [] => None
  | x :: xs' => foldl fadd x xs'
  end.

Definition correct_items : list string := "Q36" :: items 37 10.
Definition incorrect_items : list string := "Q47" :: items 48 8.

(** Column [c] holds no string. *)
Definition numeric (c : string) (d : DataFrame) : Prop :=
  Forall (λ r, is_num (cell_at c r)) (rows d).

(** Every column but the free text is numeric. *)
Definition good (d : DataFrame) : Prop :=
  ∀ c, c ∈ columns d → c ≠ "Q56" → numeric c d.

Lemma numeric_assign_eq c f d : (∀ r, is_num (f r)) → numeric c (assign c f d).
Proof.
  intros Hf. unfold numeric, assign. cbn [rows].
  apply Forall_fmap, Forall_true. intros [i m]. simpl.
  rewrite cell_at_insert_eq. apply Hf.
Qed.

Lemma numeric_assign_ne c c' f d :
  c' ≠ c → numeric c' d → numeric c' (assign c f d).
Proof.
  intros Hne Hn. unfold numeric, assign. cbn [rows].
  apply Forall_fmap. eapply Forall_impl; [apply Hn|].
  intros [i m] Hr. simpl. by rewrite cell_at_insert_ne.
Qed.

Lemma numeric_assign c c' f d :
  (∀ r, is_num (f r)) → numeric c' d → numeric c' (assign c f d).
Proof.
  intros Hf Hn. destruct (decide (c' = c)) as [->|Hne].
  - by apply numeric_assign_eq.
  - by apply numeric_assign_ne.
Qed.

Lemma columns_assign_in c f d :
  c ∈ columns d → columns (assign c f d) = columns d.
Proof. intros Hc. unfold assign, add_col. simpl. by rewrite decide_True. Qed.

Lemma elem_of_columns_assign c c' f d :
  c' ∈ columns (assign c f d) ↔ c' = c ∨ c' ∈ columns d.
Proof. apply elem_of_add_col. Qed.

Lemma good_assign c f d :
  (∀ r, is_num (f r)) → good d → good (assign c f d).
Proof.
  intros Hf Hg c' [->|Hc']%elem_of_columns_assign Hq.
  - by apply numeric_assign_eq.
  - apply numeric_assign; auto.
Qed.

Lemma setitem_coerce c d :
  setitem c (of_float <$> (to_numeric <$> (cell_at c <$> rows d))) d
  = Ok (tt, assign c (coerced c) d).
Proof. rewrite <- !list_fmap_compose. apply setitem_fmap. Qed.

(** Rewriting a numeric column value by value. *)
Lemma setitem_update c (h : option Q → option Q)
    (u : list (option Q) → list (option Q)) d :
  (∀ x, u x = h <$> x) →
  setitem c (of_float <$> u ((λ r, to_numeric (cell_at c r)) <$> rows d)) d
  = Ok (tt, assign c (λ r, of_float (h (to_numeric (cell_at c r)))) d).
Proof.
  intros Hu. rewrite Hu, <- !list_fmap_compose. apply setitem_fmap.
Qed.

Lemma update_step c (h : option Q → option Q)
    (u : list (option Q) → list (option Q)) d :
  (∀ x, u x = h <$> x) → c ∈ columns d → numeric c d →
  (x ← getitem_float c; setitem c (of_float <$> u x)) d
  = Ok (tt, assign c (λ r, of_float (h (to_numeric (cell_at c r)))) d).
Proof.
  intros Hu Hc Hn. rewrite bind_apply, getitem_float_apply by done.
  by apply setitem_update.
Qed.

Lemma np_where_fmap (p : option Q → bool) a x :
  np_where (p <$> x) a x = (λ v, if p v then Some a else v) <$> x.
Proof. unfold np_where. by rewrite zip_with_fmap_l, zip_with_diag. Qed.

Lemma np_where2_fmap (p : option Q → bool) (f : option Q → option Q) x :
  np_where2 (p <$> x) (f <$> x) x = (λ v, if p v then f v else v) <$> x.
Proof.
  unfold np_where2. induction x as [|v x IH]; [done|].
  rewrite !fmap_cons. simpl. by rewrite IH.
Qed.

(** *** The blocks that prepare the columns never fail *)

Lemma binary_loop (l : list string) d :
  (∀ c, c ∈ l → c ∈ columns d) →
  ∃ d', for_ l (λ col,
          if decide (col ∈ items 36 20) then
            s ← getitem col;
            setitem col (of_float <$> (to_numeric <$> s));;
            x ← getitem_float col;
            setitem col (of_float <$> np_where ((λ v, fgt v 1) <$> x) 1 x);;
            x ← getitem_float col;
            setitem col (of_float <$> np_where ((λ v, flt v 0) <$> x) 0 x)
          else mret tt) d = Ok (tt, d')
        ∧ columns d' = columns d.
Proof.
  revert d. induction l as [|c l IH]; intros d Hl; [by exists d|].
  assert (Hc : c ∈ columns d) by (apply Hl; left).
  cbn [for_]. rewrite bind_apply. case_decide.
  - rewrite bind_apply, getitem_apply, decide_True by done. cbv beta iota.
    rewrite bind_apply, setitem_coerce. cbv beta iota.
    set (d1 := assign c (coerced c) d).
    assert (Hc1 : columns d1 = columns d) by by apply columns_assign_in.
    rewrite bind_apply, getitem_float_apply;
      [|by rewrite Hc1|apply numeric_assign_eq; intros; apply is_num_of_float].
    cbv beta iota.
    rewrite bind_apply,
      (setitem_update c (λ v, if fgt v 1 then Some 1%Q else v)
         (λ x, np_where ((λ v, fgt v 1) <$> x) 1 x))
      by (intros; apply np_where_fmap).
    cbv beta iota.
    set (d2 := assign c _ d1).
    assert (Hc2 : columns d2 = columns d).
    { unfold d2. rewrite columns_assign_in; [done|by rewrite Hc1]. }
    rewrite (update_step c (λ v, if flt v 0 then Some 0%Q else v)
               (λ x, np_where ((λ v, flt v 0) <$> x) 0 x));
      [|intros; apply np_where_fmap|by rewrite Hc2
       |apply numeric_assign_eq; intros; apply is_num_of_float].
    cbv beta iota.
    set (d3 := assign c _ d2).
    assert (Hc3 : columns d3 = columns d).
    { unfold d3. rewrite columns_assign_in; [done|by rewrite Hc2]. }
    destruct (IH d3) as (d' & Hd' & Hcols).
    { intros c' Hc'. rewrite Hc3. apply Hl. by right. }
    exists d'. split; [done|]. by rewrite Hcols.
  - rewrite mret_apply. apply IH. intros c' Hc'. apply Hl. by right.
Qed.

Lemma binary_items_ok d :
  ∃ d', binary_items d = Ok (tt, d') ∧ columns d' = columns d.
Proof.
  unfold binary_items. rewrite bind_apply. apply binary_loop. auto.
Qed.

Lemma numeric_loop (l : list string) d :
  (∀ c, c ∈ l → c ∈ columns d) →
  ∃ d', for_ l (λ col,
          if decide (col ≠ "Q56") then
            s ← getitem col;
            setitem col (of_float <$> (to_numeric <$> s))
          else mret tt) d = Ok (tt, d')
        ∧ columns d' = columns d
        ∧ (∀ c, c ∈ l → c ≠ "Q56" → numeric c d')
        ∧ (∀ c, numeric c d → numeric c d').
Proof.
  revert d. induction l as [|c l IH]; intros d Hl.
  { exists d. repeat split; auto. by intros c []%elem_of_nil. }
  assert (Hc : c ∈ columns d) by (apply Hl; left).
  cbn [for_]. rewrite bind_apply. case_decide as Hq.
  - rewrite coerce_step by done. cbv beta iota.
    set (d1 := assign c (coerced c) d).
    assert (Hc1 : columns d1 = columns d) by by apply columns_assign_in.
    destruct (IH d1) as (d' & Hd' & Hcols & Hnum & Hkeep).
    { intros c' Hc'. rewrite Hc1. apply Hl. by right. }
    exists d'. split; [done|]. split; [by rewrite Hcols|]. split.
    + intros c' [->|Hc']%elem_of_cons Hq'; [|by apply Hnum].
      apply Hkeep, numeric_assign_eq. intros; apply is_num_of_float.
    + intros c' Hn. apply Hkeep, numeric_assign; [|done].
      intros; apply is_num_of_float.
  - rewrite mret_apply.
    destruct (IH d) as (d' & Hd' & Hcols & Hnum & Hkeep).
    { intros c' Hc'. apply Hl. by right. }
    exists d'. repeat split; try done.
    intros c' [->|Hc']%elem_of_cons Hq'; [by destruct Hq|by apply Hnum].
Qed.

Lemma numeric_columns_ok d :
  ∃ d', numeric_columns d = Ok (tt, d') ∧ columns d' = columns d ∧ good d'.
Proof.
  unfold numeric_columns. rewrite bind_apply.
  destruct (numeric_loop (columns d) d) as (d' & Hd' & Hcols & Hnum & _);
    [done|].
  exists d'. split; [done|]. split; [done|].
  intros c Hc. apply Hnum. by rewrite <- Hcols.
Qed.

Lemma adjust_Q11_ok d :
  good d →
  ∃ d', adjust_Q11 d = Ok (tt, d') ∧ columns d' = columns d ∧ good d'.
Proof.
  intros Hg. unfold adjust_Q11. rewrite bind_apply.
  change (get_columns d) with (Ok (columns d, d)). cbv beta iota.
  case_decide as Hc; [|by exists d].
  rewrite (update_step "Q11" (λ v, if fne v 1 then fsub v (Some 7%Q) else v)
             (λ x, np_where2 ((λ v, fne v 1) <$> x)
                             ((λ v, fsub v (Some 7%Q)) <$> x) x));
    [|intros; apply np_where2_fmap|done|by apply Hg].
  eexists. split; [done|]. split; [by apply columns_assign_in|].
  apply good_assign; [|done]. intros; apply is_num_of_float.
Qed.

(** *** The two scoring blocks *)

Lemma bind_assoc {A B C} (m : Fr A) (f : A → Fr B) (g : B → Fr C) d :
  (m ≫= λ a, f a ≫= g) d = ((m ≫= f) ≫= g) d.
Proof. rewrite !bind_apply. by destruct (m d) as [[]|]. Qed.

Lemma rmapM_fmap {A B} (f : A → result B) (g : A → B) (l : list A) :
  Forall (λ x, f x = Ok (g x)) l → rmapM f l = Ok (g <$> l).
Proof. induction 1 as [|x l Hx _ IH]; [done|]. simpl. by rewrite Hx, IH. Qed.

Lemma filter_nil_Forall {A} (P : A → Prop) `{!∀ x, Decision (P x)}
    (l : list A) :
  filter P l = [] ↔ Forall (λ x, ¬ P x) l.
Proof.
  induction l as [|x l IH]; [by split|]. rewrite filter_cons, Forall_cons.
  destruct (decide (P x)) as [HP|HP].
  - split; [done|]. by intros [HnP _].
  - rewrite IH. tauto.
Qed.

Lemma missing_nil cs d :
  filter (λ c, c ∉ columns d) cs = [] ↔ ∀ c, c ∈ cs → c ∈ columns d.
Proof.
  rewrite filter_nil_Forall, Forall_forall. split; intros Hc c Hin.
  - by destruct (decide (c ∈ columns d)); [|destruct (Hc c Hin)].
  - intros Hn. by apply Hn, Hc.
Qed.

Lemma good_numeric d c : good d → c ∈ columns d → c ≠ "Q56" → numeric c d.
Proof. intros Hg. apply Hg. Qed.

Lemma floats_group cs (r : row) :
  Forall (λ c, is_num (cell_at c r)) cs →
  floats ((λ c, cell_at c r) <$> cs) = Ok (group cs r).
Proof.
  intros Hn. rewrite floats_num by by apply Forall_fmap.
  unfold group. by rewrite <- list_fmap_compose.
Qed.

(** Reading columns of a good frame fails only for a missing label. *)
Lemma loc_columns_apply cs d :
  good d → "Q56" ∉ cs →
  loc_columns cs d =
    match filter (λ c, c ∉ columns d) cs with
    | [] => Ok (group cs <$> rows d, d)
    | c :: _ => Err (KeyError c)
    end.
Proof.
  intros Hg Hq. unfold loc_columns. rewrite bind_apply.
  change (get d) with (Ok (d, d)). cbv beta iota.
  destruct (filter _ cs) eqn:E; [|done]. unfold lift.
  rewrite (rmapM_fmap _ (group cs)); [done|].
  apply Forall_forall. intros r Hr. apply floats_group, Forall_forall.
  intros c Hc. assert (Hn : numeric c d).
  { apply Hg; [by eapply missing_nil|]. by intros ->. }
  unfold numeric in Hn. rewrite Forall_forall in Hn. by apply Hn.
Qed.

Lemma setitem_stat c (h : list (option Q) → cell) cs d :
  setitem c (h <$> (group cs <$> rows d)) d
  = Ok (tt, assign c (λ r, h (group cs r)) d).
Proof. rewrite <- list_fmap_compose. apply setitem_fmap. Qed.

Lemma stat_step cs c (h : list (option Q) → cell) d :
  good d → "Q56" ∉ cs →
  (g ← loc_columns cs; setitem c (h <$> g)) d =
    match filter (λ c, c ∉ columns d) cs with
    | [] => Ok (tt, assign c (λ r, h (group cs r)) d)
    | c :: _ => Err (KeyError c)
    end.
Proof.
  intros Hg Hq. rewrite bind_apply, loc_columns_apply by done.
  destruct (filter _ cs); [|done]. apply setitem_stat.
Qed.

Lemma stat_step_then {B} cs c (h : list (option Q) → cell) (k : Fr B) d :
  good d → "Q56" ∉ cs →
  (g ← loc_columns cs; setitem c (h <$> g);; k) d =
    match filter (λ c, c ∉ columns d) cs with
    | [] => k (assign c (λ r, h (group cs r)) d)
    | c :: _ => Err (KeyError c)
    end.
Proof.
  intros Hg Hq. rewrite bind_apply, loc_columns_apply by done.
  destruct (filter _ cs); [|done]. cbv beta iota.
  by rewrite bind_apply, setitem_stat.
Qed.

Lemma getitem_float_good c d :
  good d → c ≠ "Q56" →
  getitem_float c d =
    if decide (c ∈ columns d)
    then Ok ((λ r, to_numeric (cell_at c r)) <$> rows d, d)
    else Err (KeyError c).
Proof.
  intros Hg Hq. case_decide as Hc.
  - apply getitem_float_apply; [done|by apply Hg].
  - unfold getitem_float. by rewrite bind_apply, getitem_apply, decide_False.
Qed.

(** The sum of columns, accumulated as the script's expression is. *)
Lemma add_columns_fold (pre cs : list string) (fa : row → option Q)
    (acc : Fr (list (option Q))) d :
  good d → "Q56" ∉ cs →
  acc d = match filter (λ c, c ∉ columns d) pre with
          | [] => Ok (fa <$> rows d, d)
          | c :: _ => Err (KeyError c)
          end →
  foldl (λ (acc : Fr (list (option Q))) c,
           x ← acc; y ← getitem_float c; mret (zip_with fadd x y)) acc cs d
  = match filter (λ c, c ∉ columns d) (pre ++ cs) with
    | [] => Ok ((λ r, foldl fadd (fa r) (group cs r)) <$> rows d, d)
    | c :: _ => Err (KeyError c)
    end.
Proof.
  intros Hg. revert pre fa acc.
  induction cs as [|c cs IH]; intros pre fa acc Hq Hacc.
  { by rewrite app_nil_r. }
  cbn [foldl]. rewrite (IH (pre ++ [c]) (λ r, fadd (fa r) (to_numeric (cell_at c r)))).
  - by rewrite <- app_assoc.
  - intros Hin. apply Hq. by right.
  - rewrite bind_apply, Hacc, filter_app.
    destruct (filter _ pre) as [|c' ?]; [|done]. cbv beta iota.
    rewrite bind_apply, getitem_float_good; [|done|intros ->; apply Hq; left].
    rewrite filter_cons, filter_nil. simpl.
    destruct (decide (c ∈ columns d)) as [Hc|Hc].
    + rewrite decide_False by (by intros Hn). rewrite mret_apply.
      by rewrite zip_with_fmap_l, zip_with_fmap_r, zip_with_diag.
    + by rewrite decide_True.
Qed.

Lemma add_columns_apply c0 cs d :
  good d → "Q56" ∉ c0 :: cs →
  add_columns c0 cs d =
    match filter (λ c, c ∉ columns d) (c0 :: cs) with
    | [] => Ok ((λ r, sum_left (group (c0 :: cs) r)) <$> rows d, d)
    | c :: _ => Err (KeyError c)
    end.
Proof.
  intros Hg Hq. unfold add_columns. rewrite bind_apply.
  rewrite getitem_float_good; [|done|intros ->; apply Hq; left].
  rewrite filter_cons.
  destruct (decide (c0 ∈ columns d)) as [Hc|Hc].
  - rewrite decide_False by (by intros Hn). cbv beta iota.
    rewrite (add_columns_fold [] cs (λ r, to_numeric (cell_at c0 r)));
      [done|done|by intros Hin; apply Hq; right|by rewrite mret_apply].
  - by rewrite decide_True.
Qed.

(** The frame after [interaction_scores], and after [filler_scores]. *)
Definition scored (d : DataFrame) : DataFrame :=
  assign "Inanimate (n)" (λ r, CNum (Qn (count (group inanimate_items r))))
  (assign "Inanimate (SD)" (λ r, of_float (nanstd (group inanimate_items r)))
  (assign "Inanimate (average interaction rating)"
          (λ r, of_float (nanmean (group inanimate_items r)))
  (assign "Animate (n)" (λ r, CNum (Qn (count (group animate_items r))))
  (assign "Animate (SD)" (λ r, of_float (nanstd (group animate_items r)))
  (assign "Animate (average interaction rating)"
          (λ r, of_float (nanmean (group animate_items r))) d))))).

Definition filled (d : DataFrame) : DataFrame :=
  assign "Filler score"
         (λ r, of_float (fadd (to_numeric (cell_at "Filler score (correct)" r))
                              (to_numeric (cell_at "Filler score (incorrect)" r))))
  (assign "Filler score (incorrect)"
          (λ r, of_float (fsub (to_numeric (cell_at "Filler score (incorrect)" r))
                               (Some 9%Q)))
  (assign "Filler score (incorrect)"
          (λ r, of_float (sum_left (group incorrect_items r)))
  (assign "Filler score (correct)"
          (λ r, of_float (sum_left (group correct_items r))) d))).

Lemma is_num_CNum q : is_num (CNum q).
Proof. done. Qed.

Create HintDb frames.
Hint Resolve is_num_of_float is_num_CNum : frames.

Ltac good_frame :=
  repeat (apply good_assign; [intros; auto with frames|]); assumption.

Ltac in_columns :=
  repeat (apply elem_of_columns_assign; first [by left|right]); auto.

Ltac case_missing E :=
  match goal with
  | |- context [match filter ?P ?l with _ => _ end] =>
      destruct (filter P l) eqn:E
  end.

(** One statistic of [interaction_scores], followed by the rest. *)
Ltac stat_next E :=
  rewrite stat_step_then; [ | good_frame | by apply not_in_list ];
  case_missing E; [cbv beta iota | done].

Lemma interaction_scores_Ok d a d' :
  good d → interaction_scores d = Ok (a, d') →
  d' = scored d
  ∧ ∀ c, c ∈ animate_items ++ inanimate_items → c ∈ columns d.
Proof.
  intros Hg. unfold interaction_scores.
  stat_next E1. stat_next E2. stat_next E3.
  stat_next E4. stat_next E5.
  rewrite stat_step; [ | good_frame | by apply not_in_list ].
  case_missing E6; [|done]. intros [= <-]. split; [done|].
  intros c [Hc|Hc]%elem_of_app; [by eapply missing_nil|].
  eapply missing_nil in E4; [|done].
  repeat (apply elem_of_columns_assign in E4 as [->|E4];
          [exfalso; revert Hc; by apply not_in_list|]).
  done.
Qed.


Lemma good_scored d : good d → good (scored d).
Proof. intros. unfold scored. good_frame. Qed.

Lemma add_step_then {B} c0 cs c (k : Fr B) d :
  good d → "Q56" ∉ c0 :: cs →
  (x ← add_columns c0 cs; setitem c (of_float <$> x);; k) d =
    match filter (λ c, c ∉ columns d) (c0 :: cs) with
    | [] => k (assign c (λ r, of_float (sum_left (group (c0 :: cs) r))) d)
    | c :: _ => Err (KeyError c)
    end.
Proof.
  intros Hg Hq. rewrite bind_apply, add_columns_apply by done.
  destruct (filter _ _); [|done]. cbv beta iota.
  by rewrite bind_apply, <- list_fmap_compose, setitem_fmap.
Qed.

Lemma setitem_zip c (f1 f2 : row → option Q) d :
  setitem c (of_float <$> zip_with fadd (f1 <$> rows d) (f2 <$> rows d)) d
  = Ok (tt, assign c (λ r, of_float (fadd (f1 r) (f2 r))) d).
Proof.
  rewrite zip_with_fmap_l, zip_with_fmap_r, zip_with_diag.
  rewrite <- list_fmap_compose. apply setitem_fmap.
Qed.

Lemma filler_tail d :
  good d →
  "Filler score (correct)" ∈ columns d →
  "Filler score (incorrect)" ∈ columns d →
  (i ← getitem_float "Filler score (incorrect)";
   setitem "Filler score (incorrect)"
     (of_float <$> ((λ v, fsub v (Some 9%Q)) <$> i));;
   c ← getitem_float "Filler score (correct)";
   i ← getitem_float "Filler score (incorrect)";
   setitem "Filler score" (of_float <$> zip_with fadd c i)) d
  = Ok (tt,
        assign "Filler score"
          (λ r, of_float
                  (fadd (to_numeric (cell_at "Filler score (correct)" r))
                        (to_numeric (cell_at "Filler score (incorrect)" r))))
          (assign "Filler score (incorrect)"
             (λ r, of_float
                     (fsub (to_numeric (cell_at "Filler score (incorrect)" r))
                           (Some 9%Q))) d)).
Proof.
  intros Hg HC HI.
  rewrite bind_apply, getitem_float_good, decide_True by done.
  cbv beta iota.
  rewrite bind_apply,
    (setitem_update _ (λ v, fsub v (Some 9%Q))
       (fmap (λ v, fsub v (Some 9%Q)))) by done.
  cbv beta iota. set (d1 := assign _ _ d).
  assert (Hg1 : good d1) by (unfold d1; good_frame).
  rewrite bind_apply, getitem_float_good, decide_True;
    [|unfold d1; in_columns|done|done].
  cbv beta iota.
  rewrite bind_apply, getitem_float_good, decide_True;
    [|unfold d1; in_columns|done|done].
  cbv beta iota. apply setitem_zip.
Qed.

Lemma filler_scores_Ok d a d' :
  good d → filler_scores d = Ok (a, d') →
  d' = filled d ∧ ∀ c, c ∈ correct_items ++ incorrect_items → c ∈ columns d.
Proof.
  intros Hg. unfold filler_scores.
  rewrite add_step_then; [ | good_frame | by apply not_in_list ].
  case_missing E1; [cbv beta iota|done].
  rewrite add_step_then; [ | good_frame | by apply not_in_list ].
  case_missing E2; [cbv beta iota|done].
  rewrite filler_tail; [ | good_frame | in_columns | in_columns ].
  intros [= <-]. split; [done|].
  intros c [Hc|Hc]%elem_of_app; [by eapply missing_nil|].
  eapply missing_nil in E2; [|done].
  apply elem_of_columns_assign in E2 as [->|E2]; [|done].
  exfalso. revert Hc. by apply not_in_list.
Qed.


(** *** The whole stage *)

Lemma STAGE4_body_Ok d a d' :
  STAGE4_body d = Ok (a, d') →
  ∃ d3, good d3 ∧ columns d3 = columns d ∧ d' = filled (scored d3)
        ∧ (∀ c, c ∈ animate_items ++ inanimate_items → c ∈ columns d)
        ∧ (∀ c, c ∈ correct_items ++ incorrect_items → c ∈ columns d).
Proof.
  destruct (binary_items_ok d) as (d1 & E1 & C1).
  destruct (numeric_columns_ok d1) as (d2 & E2 & C2 & G2).
  destruct (adjust_Q11_ok d2 G2) as (d3 & E3 & C3 & G3).
  unfold STAGE4_body. rewrite bind_apply, E1. cbv beta iota.
  rewrite bind_apply, E2. cbv beta iota.
  rewrite bind_apply, E3. cbv beta iota. rewrite bind_apply.
  destruct (interaction_scores d3) as [[[] d4]|] eqn:E4; [|done].
  apply interaction_scores_Ok in E4 as [-> Hc4]; [|done]. intros E5.
  apply filler_scores_Ok in E5 as [-> Hc5]; [|by apply good_scored].
  assert (C : columns d3 = columns d) by congruence.
  exists d3. split; [done|]. split; [done|]. split; [done|].
  rewrite <- C. split; [done|]. intros c Hc. pose proof (Hc5 c Hc) as Hin.
  unfold scored in Hin.
  repeat (apply elem_of_columns_assign in Hin as [->|Hin];
          [exfalso; revert Hc; by apply not_in_list|]).
  done.
Qed.


Lemma run_STAGE4_Ok d d' :
  run STAGE4 d = Ok d' →
  ∃ d3, good d3 ∧ columns d3 = columns d ∧ d' = filled (scored d3)
        ∧ (∀ c, c ∈ animate_items ++ inanimate_items → c ∈ columns d)
        ∧ (∀ c, c ∈ correct_items ++ incorrect_items → c ∈ columns d).
Proof.
  unfold STAGE4. rewrite run_inplace.
  destruct (STAGE4_body d) as [[a d1]|] eqn:E; [|done]. intros [= <-].
  by eapply STAGE4_body_Ok.
Qed.

(** *** Rows of the result *)

Lemma elem_of_rows_assign (r' : row) c f d :
  r' ∈ rows (assign c f d) ↔ ∃ r : row, r ∈ rows d ∧ r' = (r.1, <[c := f r]> r.2).
Proof.
  unfold assign. cbn [rows]. rewrite list_elem_of_fmap.
  split; intros (r & Hr1 & Hr2); by exists r.
Qed.

Lemma group_insert_ne cs c v (i : Z) (m : gmap string cell) :
  c ∉ cs → group cs (i, <[c := v]> m) = group cs (i, m).
Proof.
  intros Hc. unfold group. apply list_fmap_ext. intros j c' Hc'.
  rewrite cell_at_insert_ne; [done|].
  intros ->. apply Hc. by eapply list_elem_of_lookup_2.
Qed.

Lemma foldl_fadd_None xs : foldl fadd None xs = None.
Proof. by induction xs. Qed.

Lemma foldl_fadd_missing x xs : None ∈ xs → foldl fadd x xs = None.
Proof.
  revert x. induction xs as [|y xs IH]; intros x; [by intros ?%elem_of_nil|].
  intros [<-|Hin]%elem_of_cons; simpl.
  - destruct x; apply foldl_fadd_None.
  - by apply IH.
Qed.

Lemma sum_left_missing xs : None ∈ xs → sum_left xs = None.
Proof.
  destruct xs as [|x xs]; [done|]. simpl.
  intros [<-|Hin]%elem_of_cons; [apply foldl_fadd_None|].
  by apply foldl_fadd_missing.
Qed.

Lemma group_missing cs c (r : row) :
  c ∈ cs → cell_at c r = CNaN → None ∈ group cs r.
Proof.
  intros Hc Hr. unfold group. apply list_elem_of_fmap. exists c.
  by rewrite Hr.
Qed.

End ScoreEngine.
Section ScoreClaims.
Context `{Numeric}.

(** A row of [assign c f d] has [f] of the row it comes from in column [c]
    and that row's cells elsewhere. *)
Lemma assign_row c f d (r' : row) :
  r' ∈ rows (assign c f d) →
  ∃ r : row, r ∈ rows d ∧ r'.2 !! c = Some (f r)
             ∧ ∀ c', c' ≠ c → r'.2 !! c' = r.2 !! c'.
Proof.
  intros (r & Hr & ->)%elem_of_rows_assign. exists r. split; [done|].
  split; [apply lookup_insert_eq|]. intros c' Hc'. by apply lookup_insert_ne.
Qed.

Lemma cell_same c (r r' : row) c' :
  c' ≠ c → (∀ c', c' ≠ c → r'.2 !! c' = r.2 !! c') →
  cell_at c' r' = cell_at c' r.
Proof. intros Hc' Hr. unfold cell_at. by rewrite (Hr c'). Qed.

Lemma cell_same_item (cs : list string) c (r r' : row) c' :
  bool_decide (c ∈ cs) = false → c' ∈ cs →
  (∀ c', c' ≠ c → r'.2 !! c' = r.2 !! c') →
  cell_at c' r' = cell_at c' r.
Proof.
  intros Hc%not_in_list Hc' Hr. apply (cell_same c); [|done]. by intros ->.
Qed.

Lemma group_same (cs : list string) c (r r' : row) :
  bool_decide (c ∈ cs) = false →
  (∀ c', c' ≠ c → r'.2 !! c' = r.2 !! c') →
  group cs r' = group cs r.
Proof.
  intros Hc Hr. unfold group. apply list_fmap_ext. intros j c' Hc'.
  f_equal. eapply cell_same_item; [done| |done]. by eapply list_elem_of_lookup_2.
Qed.

Lemma cell_at_Some c (r : row) v : r.2 !! c = Some v → cell_at c r = v.
Proof. intros Hv. unfold cell_at. by rewrite Hv. Qed.

(** Reading a derived cell: through the later assignments down to its own. *)
Ltac look :=
  repeat match goal with
    | E : ?r.2 !! ?c = Some _ |- context [?r.2 !! ?c] => rewrite E
    | N : ∀ c', c' ≠ _ → ?r.2 !! c' = _ |- context [?r.2 !! ?k] =>
        rewrite (N k) by done
    end.

(** The group [cs] of any of the rows is the group of the first. *)
Ltac same_group cs :=
  repeat match goal with
    | N : ∀ c', c' ≠ ?c → ?r'.2 !! c' = ?r.2 !! c' |- context [group cs ?r'] =>
        rewrite (group_same cs c r r' eq_refl N)
    end.


(** C4.  In every record of the result, [Filler score (correct)] is the sum
    of the eleven correct-filler items, [Filler score (incorrect)] the sum
    of the nine incorrect-filler items less 9, and [Filler score] their sum;
    where both sums are numbers x and y the composite is x + (y - 9), and a
    missing item makes the sum of its group, and the composite, missing. *)
Theorem C4_filler_score_identity d d' :
  run STAGE4 d = Ok d' →
  ∀ r' : row, r' ∈ rows d' →
    let c := sum_left (group correct_items r') in
    let i := sum_left (group incorrect_items r') in
    r'.2 !! "Filler score (correct)" = Some (of_float c)
    ∧ r'.2 !! "Filler score (incorrect)" = Some (of_float (fsub i (Some 9%Q)))
    ∧ r'.2 !! "Filler score" = Some (of_float (fadd c (fsub i (Some 9%Q))))
    ∧ (∀ x y, c = Some x → i = Some y →
         r'.2 !! "Filler score" = Some (CNum (x + (y - 9))))
    ∧ (∀ q, q ∈ correct_items → cell_at q r' = CNaN →
         r'.2 !! "Filler score (correct)" = Some CNaN
         ∧ r'.2 !! "Filler score" = Some CNaN)
    ∧ (∀ q, q ∈ incorrect_items → cell_at q r' = CNaN →
         r'.2 !! "Filler score (incorrect)" = Some CNaN
         ∧ r'.2 !! "Filler score" = Some CNaN).
Proof.
  intros (d3 & _ & _ & -> & _)%run_STAGE4_Ok r' Hr'. unfold filled in Hr'.
  apply assign_row in Hr' as (r3 & Hr3 & E4 & N4).
  apply assign_row in Hr3 as (r2 & Hr2 & E3 & N3).
  apply assign_row in Hr2 as (r1 & Hr1 & E2 & N2).
  apply assign_row in Hr1 as (r0 & _ & E1 & N1).
  cbv zeta.
  assert (HC : r'.2 !! "Filler score (correct)"
               = Some (of_float (sum_left (group correct_items r')))).
  { look. by same_group correct_items. }
  assert (HI2 : cell_at "Filler score (incorrect)" r2
                = of_float (sum_left (group incorrect_items r'))).
  { apply cell_at_Some. look. by same_group incorrect_items. }
  assert (HI : r'.2 !! "Filler score (incorrect)"
               = Some (of_float (fsub (sum_left (group incorrect_items r'))
                                      (Some 9%Q)))).
  { look. by rewrite HI2, to_numeric_of_float. }
  assert (HF : r'.2 !! "Filler score"
               = Some (of_float
                         (fadd (sum_left (group correct_items r'))
                               (fsub (sum_left (group incorrect_items r'))
                                     (Some 9%Q))))).
  { rewrite E4. do 3 f_equal.
    - rewrite <- (to_numeric_of_float (sum_left _)). f_equal.
      apply cell_at_Some. clear HC HI. look. by same_group correct_items.
    - rewrite <- (to_numeric_of_float (fsub _ _)). f_equal.
      apply cell_at_Some. clear HC HI. look.
      by rewrite HI2, to_numeric_of_float. }
  rewrite HC, HI, HF.
  split; [done|]. split; [done|]. split; [done|]. split.
  { by intros x y -> ->. }
  split; intros q Hq Hnan.
  - rewrite (sum_left_missing (group correct_items r'))
      by by apply (group_missing _ q).
    done.
  - rewrite (sum_left_missing (group incorrect_items r'))
      by by apply (group_missing _ q).
    by destruct (sum_left (group correct_items r')).
Qed.






End ScoreClaims.
(** ** Replacement does not reach across a separator *)

Fixpoint occurs (a : ascii) (s : string) : bool :=
  match s with
  | EmptyString => false
  | String b s' => bool_decide (a = b) || occurs a s'
  end.

(** [old in s] *)
Fixpoint contains (old s : string) : bool :=
  String.prefix old s
  || match s with
     | EmptyString => false
     | String _ s' => contains old s'
     end.

Lemma append_nil_l (s : string) : "" +:+ s = s.
Proof. reflexivity. Qed.

Lemma append_cons c (s1 s2 : string) :
  String c s1 +:+ s2 = String c (s1 +:+ s2).
Proof. reflexivity. Qed.

Lemma append_nil_r (s : string) : s +:+ "" = s.
Proof. induction s as [|c s IH]; [done|]. by rewrite append_cons, IH. Qed.

Lemma append_assoc (s1 s2 s3 : string) :
  (s1 +:+ s2) +:+ s3 = s1 +:+ (s2 +:+ s3).
Proof.
  induction s1 as [|c s1 IH]; [done|]. by rewrite !append_cons, IH.
Qed.

Lemma prefix_length old s :
  String.prefix old s = true → String.length old ≤ String.length s.
Proof.
  revert s. induction old as [|b old IH]; intros [|c s]; simpl; try done.
  - lia.
  - destruct (Ascii.ascii_dec b c); [|done]. intros ?%IH. lia.
Qed.

Lemma prefix_refl s : String.prefix s s = true.
Proof.
  induction s as [|a s IH]; [done|]. simpl.
  by destruct (Ascii.ascii_dec a a).
Qed.

Lemma prefix_app_sep old s1 a s2 :
  occurs a old = false →
  String.prefix old (s1 +:+ String a s2) = String.prefix old s1.
Proof.
  revert s1. induction old as [|b old IH]; intros s1 Ha.
  { by destruct s1. }
  simpl in Ha. apply orb_false_iff in Ha as [Hab Ha].
  apply bool_decide_eq_false in Hab.
  destruct s1 as [|c s1]; rewrite ?append_nil_l, ?append_cons; simpl.
  - destruct (Ascii.ascii_dec b a); [congruence|done].
  - destruct (Ascii.ascii_dec b c); [by apply IH|done].
Qed.

Lemma replace_go_sep old new a s2 skip s1 :
  old ≠ "" → occurs a old = false → skip ≤ String.length s1 →
  replace_go old new skip (s1 +:+ String a s2)
  = replace_go old new skip s1 +:+ String a (replace_go old new 0 s2).
Proof.
  intros Hold Ha. revert skip.
  induction s1 as [|c s1 IH]; intros skip Hskip.
  - assert (skip = 0) as -> by (simpl in Hskip; lia).
    rewrite append_nil_l. cbn [replace_go]. rewrite append_nil_l.
    assert (String.prefix old (String a s2) = false) as ->; [|done].
    destruct old as [|b old]; [done|]. simpl in *.
    apply orb_false_iff in Ha as [Hab _]. apply bool_decide_eq_false in Hab.
    destruct (Ascii.ascii_dec b a); [congruence|done].
  - destruct skip as [|k].
    + rewrite append_cons. cbn [replace_go]. rewrite <- append_cons.
      rewrite prefix_app_sep by done.
      destruct (String.prefix old (String c s1)) eqn:Ep.
      * rewrite IH, append_assoc; [done|].
        apply prefix_length in Ep. simpl in Ep. lia.
      * rewrite IH by lia. by rewrite append_cons.
    + simpl in Hskip. rewrite append_cons. cbn [replace_go]. apply IH. lia.
Qed.

Lemma replace_empty_sep new a s1 s2 :
  continues a = false →
  replace_empty new (s1 +:+ String a s2)
  = replace_empty new s1 +:+ String a (replace_empty new s2).
Proof.
  intros Ha. induction s1 as [|c s1 IH].
  - rewrite append_nil_l. cbn [replace_empty]. by rewrite Ha.
  - rewrite append_cons. cbn [replace_empty]. rewrite IH.
    destruct (continues c); [done|].
    by rewrite append_assoc, !append_cons.
Qed.

(** Replacing a word that does not contain the character [a] in a text cut
    at [a] replaces it in the two parts. *)
Lemma str_replace_sep old new a s1 s2 :
  continues a = false → occurs a old = false →
  str_replace (s1 +:+ String a s2) old new
  = str_replace s1 old new +:+ String a (str_replace s2 old new).
Proof.
  intros Hc Ha. unfold str_replace. case_decide as Hold.
  - by apply replace_empty_sep.
  - apply replace_go_sep; [done..|lia].
Qed.

Lemma replace_go_past old new skip s :
  String.length s ≤ skip → replace_go old new skip s = "".
Proof.
  revert skip. induction s as [|a s IH]; intros skip Hs; [done|].
  destruct skip as [|k]; simpl in Hs; [lia|]. cbn [replace_go].
  apply IH. lia.
Qed.

(** A word that is not in the text leaves it as it is. *)
Lemma str_replace_absent s old new :
  contains old s = false → str_replace s old new = s.
Proof.
  intros Hs. unfold str_replace. case_decide as Hold.
  { subst old. by destruct s. }
  induction s as [|a s IH]; [done|].
  cbn [contains] in Hs. apply orb_false_iff in Hs as [Hp Hs].
  cbn [replace_go]. rewrite Hp. by rewrite IH.
Qed.

(** A text that is the word becomes its replacement. *)
Lemma str_replace_self old new :
  old ≠ "" → str_replace old old new = new.
Proof.
  intros Hold. unfold str_replace. rewrite decide_False by done.
  destruct old as [|a old]; [done|]. cbn [replace_go].
  rewrite prefix_refl, replace_go_past, append_nil_r; [done|].
  simpl. lia.
Qed.

(** ** The Text Normalizer *)

Section Dictionaries.
Context {V : Type}.
Implicit Types (d : list (string * V)) (k : string) (v : V).

Lemma assoc_dict_set k k' v d :
  assoc k (dict_set k' v d) = if decide (k' = k) then Some v else assoc k d.
Proof.
  induction d as [|[k0 v0] d IH]; simpl.
  - by case_decide.
  - destruct (decide (k0 = k')) as [->|Hne]; simpl.
    + by case_decide.
    + rewrite IH. destruct (decide (k0 = k)) as [->|]; [|done].
      by rewrite decide_False by congruence.
Qed.

Lemma keys_dict_set k v d :
  (dict_set k v d).*1 = if decide (k ∈ d.*1) then d.*1 else d.*1 ++ [k].
Proof.
  induction d as [|[k0 v0] d IH].
  - case_decide as Hin; [by apply elem_of_nil in Hin|done].
  - cbn [dict_set]. rewrite !fmap_cons. cbn [fst].
    destruct (decide (k0 = k)) as [->|Hne].
    + rewrite decide_True by left. done.
    + rewrite fmap_cons, IH. cbn [fst].
      destruct (decide (k ∈ d.*1)) as [Hin|Hin].
      * by rewrite decide_True by by right.
      * rewrite decide_False; [done|].
        intros [?|?]%elem_of_cons; [congruence|done].
Qed.

Lemma NoDup_dict_set k v d : NoDup d.*1 → NoDup (dict_set k v d).*1.
Proof.
  intros Hd. rewrite keys_dict_set. case_decide as Hk; [done|].
  apply NoDup_app. split; [done|]. split.
  - intros k' Hk' ->%list_elem_of_singleton. done.
  - apply NoDup_singleton.
Qed.

Lemma assoc_elem_of k v d : NoDup d.*1 → (k, v) ∈ d → assoc k d = Some v.
Proof.
  induction d as [|[k0 v0] d IH]; [by intros _ ?%elem_of_nil|].
  rewrite fmap_cons. intros [Hk0 Hd]%NoDup_cons [[= -> ->]|Hin]%elem_of_cons;
    simpl.
  - by rewrite decide_True.
  - rewrite decide_False; [by apply IH|].
    intros ->. apply Hk0. by apply (list_elem_of_fmap_2 fst) in Hin.
Qed.

(** A dictionary filled by a loop [for k in ks: dict[k] = f(k)]. *)
Lemma assoc_fill (f : string → V) ks k d :
  assoc k (foldl (λ acc k', dict_set k' (f k') acc) d ks)
  = if decide (k ∈ ks) then Some (f k) else assoc k d.
Proof.
  revert d. induction ks as [|k' ks IH]; intros d.
  - case_decide as Hin; [by apply elem_of_nil in Hin|done].
  - cbn [foldl]. rewrite IH, assoc_dict_set.
    destruct (decide (k ∈ ks)) as [Hin|Hin].
    + by rewrite decide_True by by right.
    + destruct (decide (k' = k)) as [->|Hne].
      * by rewrite decide_True by left.
      * rewrite decide_False; [done|].
        intros [?|?]%elem_of_cons; [congruence|done].
Qed.

Lemma NoDup_fill (f : string → V) ks d :
  NoDup d.*1 → NoDup (foldl (λ acc k', dict_set k' (f k') acc) d ks).*1.
Proof.
  revert d. induction ks as [|k' ks IH]; intros d Hd; [done|]. simpl.
  by apply IH, NoDup_dict_set.
Qed.

Lemma keys_fill (f : string → V) ks d :
  NoDup (d.*1 ++ ks) →
  (foldl (λ acc k', dict_set k' (f k') acc) d ks).*1 = d.*1 ++ ks.
Proof.
  revert d. induction ks as [|k' ks IH]; intros d Hd; simpl.
  - by rewrite app_nil_r.
  - assert (Hk : k' ∉ d.*1).
    { apply NoDup_app in Hd as (_ & Hd & _). intros Hin.
      apply (Hd _ Hin). left. }
    assert (Hkeys : (dict_set k' (f k') d).*1 = d.*1 ++ [k']).
    { by rewrite keys_dict_set, decide_False. }
    rewrite IH; rewrite Hkeys, <- app_assoc; done.
Qed.

Lemma keys_fill_subset (f : string → V) ks d k :
  k ∈ (foldl (λ acc k', dict_set k' (f k') acc) d ks).*1 →
  k ∈ d.*1 ∨ k ∈ ks.
Proof.
  revert d. induction ks as [|k' ks IH]; intros d; [by left|].
  cbn [foldl]. intros [Hin|Hin]%IH; [|right; by right].
  rewrite keys_dict_set in Hin. case_decide; [by left|].
  apply elem_of_app in Hin as [Hin| ->%list_elem_of_singleton];
    [by left|right; left].
Qed.

End Dictionaries.

Lemma rmapM_Ok {A B} (f : A → result B) (l : list A) ys :
  rmapM f l = Ok ys → Forall2 (λ x y, f x = Ok y) l ys.
Proof.
  revert ys. induction l as [|x l IH]; intros ys; simpl.
  - intros [= <-]. constructor.
  - destruct (f x) as [y|] eqn:Ex; [|done]. simpl.
    destruct (rmapM f l) as [ys'|]; [|done]. simpl. intros [= <-].
    constructor; auto.
Qed.

Section TextNormalizer.
Context `{Numeric} `{SpellChecker}.

(** The tokens of the free-text column, record after record. *)
Definition corpus (d : DataFrame) : list string :=
  concat ((λ r, match cell_at "Q56" r with
                | CStr t => split t
                | _ => []
                end) <$> rows d).

(** The dictionary of corrections [STAGE5] builds for a frame. *)
Definition correction_map (d : DataFrame) : list (string * option string) :=
  build_corrections (unknown (corpus d)).

(** The local [word_counts] for a list of tokens. *)
Definition tally (all_words : list string) : list (string * nat) :=
  foldl (λ acc word, dict_set word (list_count word all_words) acc)
        [] specified_words.

Lemma str_split_sum_Ok d ws :
  str_split_sum (cell_at "Q56" <$> rows d) = Ok ws →
  ws = corpus d
  ∧ Forall (λ r, ∃ t, cell_at "Q56" r = CStr t) (rows d).
Proof.
  unfold str_split_sum, corpus. generalize (rows d). intros rs.
  destruct (rmapM _ _) as [toks|] eqn:E; [|done]. simpl.
  apply rmapM_Ok in E. intros Hws.
  assert (ws = concat toks) as ->.
  { destruct (cell_at "Q56" <$> rs); by simplify_eq. }
  clear Hws. apply Forall2_fmap_l in E.
  induction E as [|r tk rs toks Hr _ [IH1 IH2]]; [done|]. simpl in Hr.
  destruct (cell_at "Q56" r) as [t| |] eqn:Er; try done.
  injection Hr as <-. rewrite fmap_cons, Er. simpl. split; [by f_equal|].
  constructor; eauto.
Qed.

Lemma correct_column_Ok cm d s' :
  Forall (λ r, ∃ t, cell_at "Q56" r = CStr t) (rows d) →
  rmapM (correct_cell cm) (cell_at "Q56" <$> rows d) = Ok s' →
  Forall2 (λ (r : row) v, ∃ t t', cell_at "Q56" r = CStr t
                                  ∧ correct_words cm t = Ok t'
                                  ∧ v = CStr t') (rows d) s'.
Proof.
  generalize (rows d). intros rs0.
  intros Hstr E%rmapM_Ok. apply Forall2_fmap_l in E.
  induction E as [|r v rs s' Hr _ IH]; [constructor|].
  apply Forall_cons in Hstr as [(t & Ht) Hstr].
  constructor; [|by apply IH]. simpl in Hr. rewrite Ht in Hr. simpl in Hr.
  destruct (correct_words cm t) as [t'|] eqn:Et; [|done].
  injection Hr as <-. by exists t, t'.
Qed.

(** What a successful [STAGE5] has done. *)
Lemma STAGE5_body_Ok d wc d' :
  STAGE5_body d = Ok (wc, d') →
  wc = tally (corpus d)
  ∧ columns d' = columns d
  ∧ Forall2 (λ r r' : row,
               r'.1 = r.1
               ∧ (∃ t t', cell_at "Q56" r = CStr t
                          ∧ correct_words (correction_map d) t = Ok t'
                          ∧ r'.2 !! "Q56" = Some (CStr t'))
               ∧ ∀ c, c ≠ "Q56" → r'.2 !! c = r.2 !! c)
            (rows d) (rows d').
Proof.
  unfold STAGE5_body. rewrite bind_apply, getitem_apply.
  case_decide as Hc; [|done]. cbv beta iota. rewrite bind_apply.
  unfold lift at 1.
  destruct (str_split_sum _) as [all_words|] eqn:Es; [|done].
  apply str_split_sum_Ok in Es as [-> Hstr]. cbv beta iota zeta.
  rewrite bind_apply, getitem_apply, decide_True by done. cbv beta iota.
  rewrite bind_apply. unfold lift.
  destruct (rmapM _ _) as [s'|] eqn:Ec; [|done].
  apply correct_column_Ok in Ec; [|done]. cbv beta iota.
  rewrite bind_apply. unfold setitem. rewrite bind_apply.
  change (get d) with (Ok (d, d)). cbv beta iota.
  case_decide as Hlen; [|done]. unfold put. rewrite mret_apply.
  intros [= <- <-]. split; [done|]. cbn [columns rows].
  split; [by rewrite decide_True|].
  apply Forall2_same_length_lookup_2; [by rewrite length_zip_with_l_eq|].
  intros i r r' Hr (r0 & v & -> & Hr0 & Hv)%lookup_zip_with_Some.
  rewrite Hr in Hr0. injection Hr0 as <-.
  destruct (Forall2_lookup_lr _ _ _ _ _ _ Ec Hr Hv) as (t & t' & Ht & Hw & ->).
  split; [done|]. split.
  - exists t, t'. simpl. by rewrite lookup_insert_eq.
  - intros c Hne. simpl. by rewrite lookup_insert_ne.
Qed.


Lemma correction_map_keys d w c :
  (w, c) ∈ correction_map d → w ∈ unknown (corpus d).
Proof.
  unfold correction_map, build_corrections.
  intros Hin%(list_elem_of_fmap_2 fst).
  apply keys_fill_subset in Hin as [Hin|Hin]; [|done].
  by apply elem_of_nil in Hin.
Qed.

Lemma STAGE5_body_rows d x : STAGE5_body d = Ok x → rows d ≠ [].
Proof.
  intros E Hr. unfold STAGE5_body in E.
  rewrite bind_apply, getitem_apply in E. case_decide; [|done].
  cbv beta iota in E. by rewrite Hr in E.
Qed.

(** Where [correct_words] returns, no value of the dictionary is [None],
    and what it returns is the text after the replacements, made one after
    the other in the order of the dictionary. *)
Lemma correct_words_Ok cm t t' :
  correct_words cm t = Ok t' →
  ∃ subst : list (string * string),
    cm = (λ p, (p.1, Some p.2)) <$> subst
    ∧ ∀ u, correct_words cm u
           = Ok (foldl (λ v p, str_replace v p.1 p.2) u subst).
Proof.
  revert t. induction cm as [|[w [c|]] cm IH]; intros t E.
  - by exists [].
  - cbn [correct_words] in E. destruct (IH _ E) as (subst & Hcm & Hs).
    exists ((w, c) :: subst). split; [by rewrite Hcm|].
    intros u. cbn [correct_words foldl fst snd]. apply Hs.
  - done.
Qed.

Lemma replacements_absent (subst : list (string * string)) t :
  (∀ w, w ∈ subst.*1 → contains w t = false) →
  foldl (λ v p, str_replace v p.1 p.2) t subst = t.
Proof.
  induction subst as [|[w c] subst IH]; intros Hs; [done|].
  cbn [foldl fst snd]. rewrite str_replace_absent by (apply Hs; left).
  apply IH. intros w' Hw'. apply Hs. by right.
Qed.

(** A text that is a misspelled word becomes the correction of the word,
    where no other misspelled word is part of the word or of its
    correction. *)
Lemma replacements_word (subst : list (string * string)) w c :
  NoDup subst.*1 → (w, c) ∈ subst → w ≠ "" →
  (∀ w', w' ∈ subst.*1 → w' ≠ w →
     contains w' w = false ∧ contains w' c = false) →
  foldl (λ v p, str_replace v p.1 p.2) w subst = c.
Proof.
  intros Hnd Hin Hw. induction subst as [|[w0 c0] subst IH]; intros Hs.
  { by apply elem_of_nil in Hin. }
  rewrite fmap_cons in Hnd. apply NoDup_cons in Hnd as [Hw0 Hnd].
  cbn [foldl fst snd]. apply elem_of_cons in Hin as [[= <- <-]|Hin].
  - rewrite str_replace_self by done. apply replacements_absent.
    intros w' Hw'. apply Hs; [by right|]. by intros ->.
  - assert (w0 ≠ w).
    { intros ->. apply Hw0. by apply (list_elem_of_fmap_2 fst) in Hin. }
    rewrite str_replace_absent by (apply Hs; [left|done]).
    apply IH; [done..|]. intros w' Hw'. apply Hs. by right.
Qed.

(** Replacements act on each side of a character that stands by itself
    and that no word to replace has. *)
Lemma replacements_sep (subst : list (string * string)) a t1 t2 :
  Ascii.nat_of_ascii a < 128 →
  (∀ w, w ∈ subst.*1 → occurs a w = false) →
  foldl (λ v p, str_replace v p.1 p.2) (t1 +:+ String a t2) subst
  = foldl (λ v p, str_replace v p.1 p.2) t1 subst
    +:+ String a (foldl (λ v p, str_replace v p.1 p.2) t2 subst).
Proof.
  intros Ha. assert (Hc : continues a = false).
  { unfold continues. cbv zeta. apply andb_false_iff. left.
    apply Nat.leb_gt. lia. }
  revert t1 t2. induction subst as [|[w c] subst IH]; intros t1 t2 Hs; [done|].
  cbn [foldl fst snd]. rewrite str_replace_sep by (done || apply Hs; left).
  apply IH. intros w' Hw'. apply Hs. by right.
Qed.

Lemma STAGE5_labels d wc d' :
  STAGE5_body d = Ok (wc, d') → labels d' = labels d.
Proof.
  intros (_ & _ & Hrows)%STAGE5_body_Ok. unfold labels. symmetry.
  apply list_eq_Forall2, Forall2_fmap.
  eapply Forall2_impl; [apply Hrows|]. by intros r r' [-> _].
Qed.

(** C7.  [STAGE5] builds one dictionary of corrections from the tokens of
    the whole column and applies it to every record.  The dictionary has
    one entry for each word the checker reports unknown among the tokens of
    the table, and the value of the entry is the correction the checker
    proposes.  The text of every record becomes what the replacements of
    the dictionary, made one after the other in its order, make of it: the
    same replacements for every record, so records with the same text get
    the same text.  A text that is one misspelled word becomes the
    correction of that word where no other misspelled word is part of the
    word or of the correction; and across an ASCII character that no
    misspelled word contains (white space, for words that are tokens) the
    replacements act on each side independently, so a token is corrected in
    the same way wherever it stands. *)
Theorem C7_one_correction_map d d' :
  run STAGE5 d = Ok d' →
  ∃ subst : list (string * string),
    let corrected :=
      λ t, foldl (λ v p, str_replace v p.1 p.2) t subst in
    correction_map d = (λ p, (p.1, Some p.2)) <$> subst
    ∧ NoDup subst.*1
    ∧ (∀ w, w ∈ subst.*1 ↔ w ∈ unknown (corpus d))
    ∧ (∀ w c, (w, c) ∈ subst → correction w = Some c)
    ∧ (∀ i (r' : row), rows d' !! i = Some r' →
         ∃ (r : row) t, rows d !! i = Some r
           ∧ cell_at "Q56" r = CStr t
           ∧ r'.2 !! "Q56" = Some (CStr (corrected t)))
    ∧ (∀ i j (ri rj ri' rj' : row),
         rows d !! i = Some ri → rows d !! j = Some rj →
         rows d' !! i = Some ri' → rows d' !! j = Some rj' →
         cell_at "Q56" ri = cell_at "Q56" rj →
         ri'.2 !! "Q56" = rj'.2 !! "Q56")
    ∧ (∀ w c, (w, c) ∈ subst → w ≠ "" →
         (∀ w', w' ∈ subst.*1 → w' ≠ w →
            contains w' w = false ∧ contains w' c = false) →
         corrected w = c)
    ∧ (∀ a, Ascii.nat_of_ascii a < 128 →
         (∀ w, w ∈ subst.*1 → occurs a w = false) →
         ∀ t1 t2, corrected (t1 +:+ String a t2)
                  = corrected t1 +:+ String a (corrected t2)).
Proof.
  unfold STAGE5. rewrite run_inplace.
  destruct (STAGE5_body d) as [[wc d1]|] eqn:E; [|done]. intros [= <-].
  pose proof (STAGE5_body_rows _ _ E) as Hne.
  apply STAGE5_body_Ok in E as (_ & _ & Hrows).
  assert (Hnd : NoDup (correction_map d).*1).
  { apply NoDup_fill. constructor. }
  assert (Hsub : ∃ subst : list (string * string),
            correction_map d = (λ p, (p.1, Some p.2)) <$> subst
            ∧ ∀ u, correct_words (correction_map d) u
                   = Ok (foldl (λ v p, str_replace v p.1 p.2) u subst)).
  { destruct (rows d) as [|r0 rs] eqn:Er; [done|].
    apply Forall2_cons_inv_l in Hrows
      as (r0' & rs' & (_ & (t & t' & _ & Hw & _) & _) & _ & _).
    by apply correct_words_Ok in Hw. }
  destruct Hsub as (subst & Hcm & Hs). exists subst. cbv zeta.
  assert (Hkeys : (correction_map d).*1 = subst.*1).
  { rewrite Hcm, <- list_fmap_compose. by apply list_fmap_ext. }
  rewrite Hkeys in Hnd.
  assert (Hrow : ∀ i (r' : row), rows d1 !! i = Some r' →
            ∃ (r : row) t, rows d !! i = Some r
              ∧ cell_at "Q56" r = CStr t
              ∧ r'.2 !! "Q56"
                = Some (CStr (foldl (λ v p, str_replace v p.1 p.2) t subst))).
  { intros i r' Hr'.
    destruct (Forall2_lookup_r _ _ _ _ _ Hrows Hr')
      as (r & Hr & _ & (t & t' & Ht & Hw & Hq) & _).
    exists r, t. rewrite Hs in Hw. injection Hw as <-. done. }
  split; [done|]. split; [done|]. split; [|split; [|split; [|split; [|split]]]].
  - intros w. rewrite <- Hkeys. split.
    + intros (p & -> & Hp)%list_elem_of_fmap. destruct p as [w c].
      by eapply correction_map_keys.
    + intros Hw. apply (list_elem_of_fmap_2' fst _ (w, correction w)); [|done].
      apply assoc_In. unfold correction_map, build_corrections.
      by rewrite assoc_fill, decide_True.
  - intros w c Hin.
    assert (Hc : (w, Some c) ∈ correction_map d).
    { rewrite Hcm. by apply (list_elem_of_fmap_2' _ _ (w, c)). }
    pose proof (correction_map_keys _ _ _ Hc) as Hw.
    rewrite Hcm in Hc. rewrite <- Hkeys in Hnd.
    rewrite <- Hcm in Hc. apply (assoc_elem_of _ _ _ Hnd) in Hc.
    unfold correction_map, build_corrections in Hc.
    rewrite assoc_fill, decide_True in Hc by done. congruence.
  - done.
  - intros i j ri rj ri' rj' Hi Hj Hi' Hj' Heq.
    destruct (Hrow i ri' Hi') as (r1 & t1 & Hr1 & Ht1 & ->).
    destruct (Hrow j rj' Hj') as (r2 & t2 & Hr2 & Ht2 & ->).
    assert (r1 = ri) as -> by congruence.
    assert (r2 = rj) as -> by congruence.
    assert (t1 = t2) as -> by congruence. done.
  - intros w c Hin Hw Hs'. by apply replacements_word.
  - intros a Ha Hocc t1 t2. by apply replacements_sep.
Qed.

(** C6, as the code has it.  The tally [STAGE5] computes holds, for each
    of the listed keywords, the number of times it occurs among the tokens
    of the column as it was before the corrections; the stage returns the
    frame only, with the columns and the records it had, in their order and
    under their labels, and nothing changed but the text. *)
Theorem C6_keyword_tally_uncorrected d wc d' :
  STAGE5_body d = Ok (wc, d') →
  wc.*1 = specified_words
  ∧ (∀ w, w ∈ specified_words → assoc w wc = Some (list_count w (corpus d)))
  ∧ run STAGE5 d = Ok d'
  ∧ columns d' = columns d
  ∧ labels d' = labels d
  ∧ (∀ i (r' : row), rows d' !! i = Some r' →
       ∃ r : row, rows d !! i = Some r
                  ∧ ∀ c, c ≠ "Q56" → r'.2 !! c = r.2 !! c).
Proof.
  intros E. pose proof (STAGE5_labels _ _ _ E) as Hlab.
  pose proof (STAGE5_body_Ok _ _ _ E) as (-> & Hcols & Hrows).
  split; [|split; [|split; [|split; [|split]]]].
  - unfold tally. rewrite keys_fill; [done|].
    apply (bool_decide_unpack _). by vm_compute.
  - intros w Hw. unfold tally. by rewrite assoc_fill, decide_True.
  - unfold STAGE5. by rewrite run_inplace, E.
  - done.
  - done.
  - intros i r' Hr'.
    destruct (Forall2_lookup_r _ _ _ _ _ Hrows Hr') as (r & Hr & _ & _ & Hc).
    by exists r.
Qed.

End TextNormalizer.

(** * Worked examples

    The statements above at the tables and collaborators of [Examples]. *)

Import Examples.

Lemma C1_witness :
  run STAGE1 three_records = Ok survivor
  ∧ ∃ r1, rows three_records !! 1 = Some r1
    ∧ length (rows survivor)
      + length (filter (λ r, passes r)
                  (filter (λ r : row, ¬ r.1 ≠ r1.1)
                          (rows three_records)))
      = length (filter (λ r, passes r) (rows three_records))
    ∧ (NoDup (labels three_records) →
       length (rows survivor)
       = length (filter (λ r, passes r)
                        (delete 1 (rows three_records))))
    ∧ ∀ r' : row, r' ∈ rows survivor →
        ∃ p q, r'.2 !! "Progress" = Some (CNum p)
               ∧ r'.2 !! "Q3" = Some (CNum q)
               ∧ (99 < p)%Q ∧ (18 < q)%Q.
Proof.
  split; [vm_compute; reflexivity|].
  apply (C1_exclusion_filter_count three_records survivor).
  vm_compute; reflexivity.
Defined.

Lemma C10_witness :
  run STAGE1 one_record = Err IndexError
  ∧ (1%Z ∉ labels first_and_third)
  ∧ labels first_and_third
    = fst <$> filter (λ r, passes r)
                (filter (λ r : row, r.1 ≠ 1%Z)
                        (rows passing_second)).
Proof.
  split.
  - apply (proj1 (C10_structural_drop_unconditional one_record)).
    simpl. lia.
  - apply (proj2 (C10_structural_drop_unconditional passing_second)
                 first_and_third
                 (gatekeeping 1 (CStr "100") (CStr "30"))).
    + reflexivity.
    + vm_compute. reflexivity.
Defined.


Lemma C2_witness :
  run STAGE1 three_records = Ok survivor
  ∧ (∃ e, run PROCESS three_records = Err e)
  ∧ ("SubID" ∈ columns survivor
     ∧ (λ r : row, r.2 !! "SubID") <$> rows survivor
       = (λ k, Some (CNum (inject_Z (Z.of_nat k))))
           <$> seq 1 (length (rows survivor))
     ∧ (∀ i (r : row), rows survivor !! i = Some r →
          r.2 !! "SubID" = Some (CNum (inject_Z (Z.of_nat i + 1))))
     ∧ labels survivor `sublist_of` labels three_records
     ∧ (∀ stage, stage ∈ [STAGE2; STAGE3; STAGE4; STAGE5] →
          ∀ x y, run stage x = Ok y →
            labels y = labels x
            ∧ ∀ i (r r' : row) q,
                rows x !! i = Some r → rows y !! i = Some r' →
                r.2 !! "SubID" = Some (CNum q) →
                r'.2 !! "SubID" = Some (CNum q))
     ∧ (∀ d5, run PROCESS three_records = Ok d5 →
          labels d5 = labels survivor
          ∧ ∀ i (r : row), rows d5 !! i = Some r →
              r.2 !! "SubID" = Some (CNum (inject_Z (Z.of_nat i + 1)))))
  ∧ run STAGE1 survey = Ok survey_filtered
  ∧ run PROCESS survey = Ok survey_processed
  ∧ (λ r : row, (r.1, r.2 !! "SubID")) <$> rows survey_filtered
    = [ (2%Z, Some (CNum 1)); (4%Z, Some (CNum 2)) ]
  ∧ (λ r : row, (r.1, r.2 !! "SubID")) <$> rows survey_processed
    = [ (2%Z, Some (CNum 1)); (4%Z, Some (CNum 2)) ]
  ∧ labels survey_processed = labels survey_filtered
  ∧ (∀ i (r : row), rows survey_processed !! i = Some r →
       r.2 !! "SubID" = Some (CNum (inject_Z (Z.of_nat i + 1)))).
Proof.
  split; [vm_compute; reflexivity|].
  split; [eexists; vm_compute; reflexivity|].
  split.
  { apply (C2_subject_ids_sequential three_records survivor).
    vm_compute; reflexivity. }
  split; [vm_compute; reflexivity|].
  split; [vm_compute; reflexivity|].
  split; [vm_compute; reflexivity|].
  split; [vm_compute; reflexivity|].
  refine (proj2 (proj2 (proj2 (proj2 (proj2
            (C2_subject_ids_sequential survey survey_filtered _)))))
            survey_processed _);
    vm_compute; reflexivity.
Defined.

(** C9 as the specification has it fails: [STAGE1] changes the frame it is
    called on.  Of the three records the caller passes, two are left, the
    second having been dropped in place. *)
Lemma C9_counterexample :
  argument_after STAGE1 three_records = Ok three_records_after
  ∧ three_records_after ≠ three_records.
Proof.
  split; [vm_compute; reflexivity|].
  intros E. apply (f_equal (λ d, length (rows d))) in E. discriminate E.
Qed.

Lemma C9_witness :
  (∃ r1, rows three_records !! 1 = Some r1
         ∧ argument_after STAGE1 three_records
           = Ok (stage1_arg r1.1 three_records))
  ∧ run PROCESS survey = Ok survey_processed
  ∧ argument_after PROCESS survey = Ok survey.
Proof.
  split.
  - apply (proj1 (proj2 (proj2 (proj2 (proj2
             (C9_stages_work_in_place three_records))))) survivor).
    vm_compute. reflexivity.
  - split; [vm_compute; reflexivity|].
    apply (proj2 (proj2 (proj2 (proj2 (proj2
             (C9_stages_work_in_place survey))))) survey_processed).
    vm_compute. reflexivity.
Defined.

(** C3 fails on the code.  The block that is to leave only 0 and 1 in the
    filler columns clamps: a cell holding one half comes out as one half. *)
Theorem C3_fraction_survives_normalization :
  run STAGE4 half_answer = Ok half_answer_scored
  ∧ (λ r : row, r.2 !! "Q36") <$> rows half_answer_scored
    = [Some (CNum (1 # 2))].
Proof. split; vm_compute; reflexivity. Qed.

Lemma C4_witness :
  run STAGE4 ratings = Ok ratings_scored
  ∧ ∀ r' : row, r' ∈ rows ratings_scored →
      let c := sum_left (group correct_items r') in
      let i := sum_left (group incorrect_items r') in
      r'.2 !! "Filler score (correct)" = Some (of_float c)
      ∧ r'.2 !! "Filler score (incorrect)"
        = Some (of_float (fsub i (Some 9%Q)))
      ∧ r'.2 !! "Filler score"
        = Some (of_float (fadd c (fsub i (Some 9%Q))))
      ∧ (∀ x y, c = Some x → i = Some y →
           r'.2 !! "Filler score" = Some (CNum (x + (y - 9))))
      ∧ (∀ q, q ∈ correct_items → cell_at q r' = CNaN →
           r'.2 !! "Filler score (correct)" = Some CNaN
           ∧ r'.2 !! "Filler score" = Some CNaN)
      ∧ (∀ q, q ∈ incorrect_items → cell_at q r' = CNaN →
           r'.2 !! "Filler score (incorrect)" = Some CNaN
           ∧ r'.2 !! "Filler score" = Some CNaN).
Proof.
  split; [vm_compute; reflexivity|].
  apply (C4_filler_score_identity ratings ratings_scored).
  vm_compute. reflexivity.
Defined.


(** C6 as the specification has it fails: the tally is taken over the
    tokens as they were written.  Both answers hold the misspelling of one
    keyword; it is corrected in the column, and counted zero times. *)
Lemma C6_counterexample :
  STAGE5_body misspelt = Ok (tally (corpus misspelt), misspelt_corrected)
  ∧ list_count "owl" (corpus misspelt_corrected) = 2
  ∧ assoc "owl" (tally (corpus misspelt))
    ≠ Some (list_count "owl" (corpus misspelt_corrected)).
Proof.
  split; [vm_compute; reflexivity|].
  split; [vm_compute; reflexivity|]. vm_compute. discriminate.
Qed.

Lemma C6_witness :
  corpus misspelt = ["owll"; "teh"; "owll"; "and"; "a"; "kite"]
  ∧ STAGE5_body misspelt = Ok (tally (corpus misspelt), misspelt_corrected)
  ∧ assoc "owl" (tally (corpus misspelt)) = Some 0
  ∧ assoc "kite" (tally (corpus misspelt)) = Some 1
  ∧ ((tally (corpus misspelt)).*1 = specified_words
     ∧ (∀ w, w ∈ specified_words →
          assoc w (tally (corpus misspelt))
          = Some (list_count w (corpus misspelt)))
     ∧ run STAGE5 misspelt = Ok misspelt_corrected
     ∧ columns misspelt_corrected = columns misspelt
     ∧ labels misspelt_corrected = labels misspelt
     ∧ (∀ i (r' : row), rows misspelt_corrected !! i = Some r' →
          ∃ r : row, rows misspelt !! i = Some r
                     ∧ ∀ c, c ≠ "Q56" → r'.2 !! c = r.2 !! c))
  ∧ corpus no_break = ["owl"; "kite"; "owl"; "bee"]
  ∧ STAGE5_body no_break = Ok (tally (corpus no_break), no_break)
  ∧ assoc "owl" (tally (corpus no_break)) = Some 2
  ∧ assoc "kite" (tally (corpus no_break)) = Some 1
  ∧ (∀ w, w ∈ specified_words →
       assoc w (tally (corpus no_break))
       = Some (list_count w (corpus no_break))).
Proof.
  split; [vm_compute; reflexivity|].
  split; [vm_compute; reflexivity|].
  split; [vm_compute; reflexivity|].
  split; [vm_compute; reflexivity|].
  split.
  { apply (C6_keyword_tally_uncorrected misspelt).
    vm_compute. reflexivity. }
  split; [vm_compute; reflexivity|].
  split; [vm_compute; reflexivity|].
  split; [vm_compute; reflexivity|].
  split; [vm_compute; reflexivity|].
  refine (proj1 (proj2 (C6_keyword_tally_uncorrected
                          no_break (tally (corpus no_break)) no_break _))).
  vm_compute. reflexivity.
Defined.

Lemma C7_witness :
  run STAGE5 misspelt = Ok misspelt_corrected
  ∧ unknown (corpus misspelt) = ["teh"; "owll"]
  ∧ correction_map misspelt = [("teh", Some "the"); ("owll", Some "owl")]
  ∧ ∃ subst : list (string * string),
      let corrected :=
        λ t, foldl (λ v p, str_replace v p.1 p.2) t subst in
      correction_map misspelt = (λ p, (p.1, Some p.2)) <$> subst
      ∧ NoDup subst.*1
      ∧ (∀ w, w ∈ subst.*1 ↔ w ∈ unknown (corpus misspelt))
      ∧ (∀ w c, (w, c) ∈ subst → correction w = Some c)
      ∧ (∀ i (r' : row), rows misspelt_corrected !! i = Some r' →
           ∃ (r : row) t, rows misspelt !! i = Some r
             ∧ cell_at "Q56" r = CStr t
             ∧ r'.2 !! "Q56" = Some (CStr (corrected t)))
      ∧ (∀ i j (ri rj ri' rj' : row),
           rows misspelt !! i = Some ri → rows misspelt !! j = Some rj →
           rows misspelt_corrected !! i = Some ri' →
           rows misspelt_corrected !! j = Some rj' →
           cell_at "Q56" ri = cell_at "Q56" rj →
           ri'.2 !! "Q56" = rj'.2 !! "Q56")
      ∧ (∀ w c, (w, c) ∈ subst → w ≠ "" →
           (∀ w', w' ∈ subst.*1 → w' ≠ w →
              contains w' w = false ∧ contains w' c = false) →
           corrected w = c)
      ∧ (∀ a, Ascii.nat_of_ascii a < 128 →
           (∀ w, w ∈ subst.*1 → occurs a w = false) →
           ∀ t1 t2, corrected (t1 +:+ String a t2)
                    = corrected t1 +:+ String a (corrected t2)).
Proof.
  split; [vm_compute; reflexivity|].
  split; [vm_compute; reflexivity|].
  split; [vm_compute; reflexivity|].
  apply (C7_one_correction_map misspelt misspelt_corrected).
  vm_compute. reflexivity.
Defined.
